(** * A shallow embedding of the OCI layout store and of the file getter

    The development follows [pkg/artifact/file/getter/file.go] (the file
    getter: [File.Name], [File.Open], [File.Detect], [File.path]) and the
    layout store ([NewLayout], [WithCache],
    [Layout.AddOCI], [Layout.AddOCICollection], [Layout.Flush],
    [Layout.Copy], [Layout.CopyAll], [Layout.Identify],
    [Layout.writeBlobData], [Layout.writeLayer]).

    The file system is a finite map from path names to nodes, Go errors are
    an inductive type with the wrapping of [fmt.Errorf("...: %w", err)], and
    calls that may fail thread the file system through and return the error
    next to it, as the Go code does.

    What the model leaves out.  The file system has no permissions, no
    symbolic links and no device errors: a call of package [os] fails only
    for the shape of the tree (ENOENT, EEXIST, ENOTDIR, EISDIR, EINVAL).
    The functions of an [errgroup] take effect one whole [writeLayer] after
    the other, in an order that is a parameter.  A [context.Context] is
    passed around by the code and never looked at; the line that [CopyAll]
    prints and the closing of files and readers have no counterpart.
    [NewLayout] opens the index through [content.NewOCI] and [LoadIndex],
    which are parameters of its model, as [json.Marshal] and [oras.Copy] are
    of the models of their callers.  [File.Config] hands a record to
    [artifact.ToConfig], of a package that is not at hand, and is left out;
    of the tests of the getter the fixture is modelled, and the [Client] they
    go through is not at hand. *)

From Stdlib Require Import ZArith List Strings.String Strings.Ascii Strings.Byte Permutation Lia.
From stdpp Require Import base option list strings gmap fin_maps.

Local Open Scope string_scope.

(** ** SHA-256 (FIPS 180-4), as computed by [crypto/sha256]

    [static.NewLayer(b, _).Digest()] and [digest.FromBytes] both hash with
    SHA-256; the function is written out so that digests can be evaluated. *)
Module SHA256.
Local Open Scope Z_scope.

Definition mask32 : Z := 2 ^ 32 - 1.
Definition u32 (x : Z) : Z := Z.land x mask32.
Definition add32 (x y : Z) : Z := u32 (x + y).
(* bits.RotateLeft32(x, -n) *)
Definition rotr (x n : Z) : Z :=
Z.lor (Z.shiftr x n) (u32 (Z.shiftl x (32 - n))).
(* ^x on a uint32 *)
Definition not32 (x : Z) : Z := Z.lxor x mask32.

Definition is_prime (n : Z) : bool :=
forallb (fun d => negb (n mod (Z.of_nat d) =? 0)) (seq 2 (Z.to_nat n - 2)).
Definition primes64 : list Z :=
Eval vm_compute in filter is_prime (map Z.of_nat (seq 2 310)).

(* Largest r with r^3 <= n, by bisection on the bits of r. *)
Fixpoint icbrt_bits (bits : nat) (r n : Z) : Z :=
match bits with
| O => r
| S b =>
    let r' := r + 2 ^ Z.of_nat b in
    icbrt_bits b (if r' * r' * r' <=? n then r' else r) n
end.
Definition icbrt (n : Z) : Z := icbrt_bits 40 0 n.

(* The round constants: the first 32 bits of the fractional parts of the
 cube roots of the first 64 primes. *)
Definition K256 : list Z :=
Eval vm_compute in map (fun p => u32 (icbrt (p * 2 ^ 96))) primes64.
(* The initial hash value: the same for the square roots of the first 8. *)
Definition init256 : list Z :=
Eval vm_compute in map (fun p => u32 (Z.sqrt (p * 2 ^ 64))) (firstn 8 primes64).

Definition byteZ (b : byte) : Z := Z.of_N (Byte.to_N b).
Definition Zbyte (z : Z) : byte :=
match Byte.of_N (Z.to_N (z mod 256)) with Some b => b | None => x00 end.

(* Big-endian encoding of [x] on [n] bytes. *)
Fixpoint be_bytes (n : nat) (x : Z) : list byte :=
match n with
| O => []
| S k => Zbyte (Z.shiftr x (8 * Z.of_nat k)) :: be_bytes k x
end.

(* checkSum's padding: 0x80, zeros up to 56 mod 64, the bit length on 8 bytes. *)
Definition pad (msg : list byte) : list byte :=
let len := Z.of_nat (length msg) in
let zeros := Z.to_nat ((55 - len) mod 64) in
msg ++ x80 :: repeat x00 zeros ++ be_bytes 8 (8 * len).

Fixpoint be_words (fuel : nat) (p : list byte) : list Z :=
match fuel, p with
| S k, b0 :: b1 :: b2 :: b3 :: rest =>
    Z.lor (Z.lor (Z.shiftl (byteZ b0) 24) (Z.shiftl (byteZ b1) 16))
          (Z.lor (Z.shiftl (byteZ b2) 8) (byteZ b3)) :: be_words k rest
| _, _ => []
end.

(* The message schedule, most recent word first: [ws] holds w[i-1], w[i-2], ... *)
Fixpoint schedule (n : nat) (ws : list Z) : list Z :=
match n with
| O => ws
| S k =>
    let v1 := nth 1 ws 0 in
    let t1 := Z.lxor (Z.lxor (rotr v1 17) (rotr v1 19)) (Z.shiftr v1 10) in
    let v2 := nth 14 ws 0 in
    let t2 := Z.lxor (Z.lxor (rotr v2 7) (rotr v2 18)) (Z.shiftr v2 3) in
    schedule k (add32 (add32 (add32 t1 (nth 6 ws 0)) t2) (nth 15 ws 0) :: ws)
end.

Record regs := Regs { ra : Z; rb : Z; rc : Z; rd : Z; re : Z; rf : Z; rg : Z; rh : Z }.

Definition round (s : regs) (kw : Z * Z) : regs :=
let '(Regs a b c d e f g h) := s in
let t1 := add32 (add32 (add32 (add32 h
            (Z.lxor (Z.lxor (rotr e 6) (rotr e 11)) (rotr e 25)))
            (Z.lxor (Z.land e f) (Z.land (not32 e) g))) (fst kw)) (snd kw) in
let t2 := add32 (Z.lxor (Z.lxor (rotr a 2) (rotr a 13)) (rotr a 22))
            (Z.lxor (Z.lxor (Z.land a b) (Z.land a c)) (Z.land b c)) in
Regs (add32 t1 t2) a b c (add32 d t1) e f g.

Definition block (s : regs) (p : list byte) : regs :=
let w := rev (schedule 48 (rev (be_words 16 p))) in
let '(Regs a b c d e f g h) := fold_left round (combine K256 w) s in
Regs (add32 (ra s) a) (add32 (rb s) b) (add32 (rc s) c) (add32 (rd s) d)
     (add32 (re s) e) (add32 (rf s) f) (add32 (rg s) g) (add32 (rh s) h).

Fixpoint blocks (fuel : nat) (s : regs) (p : list byte) : regs :=
match fuel with
| O => s
| S k => blocks k (block s (firstn 64 p)) (skipn 64 p)
end.

Definition init_regs : regs :=
Regs (nth 0 init256 0) (nth 1 init256 0) (nth 2 init256 0) (nth 3 init256 0)
     (nth 4 init256 0) (nth 5 init256 0) (nth 6 init256 0) (nth 7 init256 0).

(* sha256.Sum256 *)
Definition Sum256 (msg : list byte) : list byte :=
let p := pad msg in
let '(Regs a b c d e f g h) := blocks (length p / 64) init_regs p in
concat (map (be_bytes 4) [a; b; c; d; e; f; g; h]).

End SHA256.

(** ** [encoding/hex] *)
Definition hexdigit (n : N) : ascii :=
  ascii_of_N (if (n <? 10)%N then 48 + n else 87 + n).

(* hex.EncodeToString *)
Fixpoint EncodeToString (bs : list byte) : string :=
  match bs with
  | [] => ""
  | b :: rest =>
      let n := Byte.to_N b in
      String (hexdigit (n / 16)) (String (hexdigit (n mod 16)) (EncodeToString rest))
  end.

Definition bytes_of_string (s : string) : list byte := list_byte_of_string s.


(** ** Go errors

    [errors.New], the [*fs.PathError] of package [os], and the wrapping of
    [fmt.Errorf("prefix%w", err)]. *)
Inductive Errno := ENOENT | EEXIST | ENOTDIR | EISDIR | EINVAL.

Inductive error :=
| errorString (msg : string)
| PathError (op path : string) (errno : Errno)
| wrapError (prefix : string) (err : error).

Definition errno_string (e : Errno) : string :=
  match e with
  | ENOENT => "no such file or directory"
  | EEXIST => "file exists"
  | ENOTDIR => "not a directory"
  | EISDIR => "is a directory"
  | EINVAL => "invalid argument"
  end.

(* err.Error() *)
Fixpoint Error (e : error) : string :=
  match e with
  | errorString msg => msg
  | PathError op path errno => op ++ " " ++ path ++ ": " ++ errno_string errno
  | wrapError prefix err => prefix ++ Error err
  end.

(* errors.Unwrap *)
Definition Unwrap (e : error) : option error :=
  match e with
  | wrapError _ err => Some err
  | _ => None
  end.

(* errors.Is(e, target) with structural equality: [target] is [e] or is
   reached from [e] by unwrapping. *)
Fixpoint Is (e target : error) : Prop :=
  e = target \/ match e with wrapError _ err => Is err target | _ => False end.

(* os.IsExist *)
Definition IsExist (e : error) : bool :=
  match e with
  | PathError _ _ EEXIST => true
  | _ => false
  end.

(* A call returning [(T, error)]. *)
Inductive result (A : Type) :=
| Ok (a : A)
| Err (e : error).
Arguments Ok {A} a.
Arguments Err {A} e.

(** ** [path/filepath] on a Unix system *)
Definition Separator : ascii := "/"%char.
Definition IsPathSeparator (c : ascii) : bool := Ascii.eqb c Separator.

Fixpoint drop_while {A} (f : A -> bool) (l : list A) : list A :=
  match l with
  | [] => []
  | x :: r => if f x then drop_while f r else l
  end.

Fixpoint take_while {A} (f : A -> bool) (l : list A) : list A :=
  match l with
  | [] => []
  | x :: r => if f x then x :: take_while f r else []
  end.

Definition chars (s : string) : list ascii := list_ascii_of_string s.
Definition of_chars (l : list ascii) : string := string_of_list_ascii l.

(* The elements between separators: strings.Split(s, "/"). *)
Fixpoint split_sep (s : string) : list string :=
  match s with
  | EmptyString => [""]
  | String c r =>
      if IsPathSeparator c then "" :: split_sep r
      else match split_sep r with
           | h :: t => String c h :: t
           | [] => [String c ""]
           end
  end.

(* strings.Join(elems, "/") *)
Fixpoint join_sep (elems : list string) : string :=
  match elems with
  | [] => ""
  | [e] => e
  | e :: rest => e ++ "/" ++ join_sep rest
  end.

(* One element of Clean's loop; [out] is the output so far, last element
   first.  An empty or "." element is skipped; ".." removes the element
   before it, is dropped at the root, and is kept at the start of a
   relative path; anything else is appended. *)
Definition clean_step (rooted : bool) (out : list string) (e : string) : list string :=
  if String.eqb e "" || String.eqb e "." then out
  else if String.eqb e ".." then
    match out with
    | top :: rest => if String.eqb top ".." then e :: out else rest
    | [] => if rooted then [] else [e]
    end
  else e :: out.

Definition is_rooted (path : string) : bool :=
  match path with
  | String c _ => IsPathSeparator c
  | EmptyString => false
  end.

(* Clean's loop over the elements, and the output it builds *)
Definition norm (rooted : bool) (elems : list string) : list string :=
  rev (fold_left (clean_step rooted) elems []).

(* Clean's result: the elements joined, after the root if there is one;
   "." when nothing is left of a relative path *)
Definition render (rooted : bool) (out : list string) : string :=
  if rooted then "/" ++ join_sep out
  else match out with [] => "." | _ => join_sep out end.

(* filepath.Clean *)
Definition Clean (path : string) : string :=
  if String.eqb path "" then "."
  else render (is_rooted path) (norm (is_rooted path) (split_sep path)).

(* filepath.Join: empty elements before the first non-empty one are
   ignored, the rest is joined with the separator and cleaned. *)
Definition Join (elem : list string) : string :=
  match drop_while (fun e => String.eqb e "") elem with
  | [] => ""
  | rest => Clean (join_sep rest)
  end.

(* filepath.Base *)
Definition Base (path : string) : string :=
  if String.eqb path "" then "."
  else
    let stripped := drop_while IsPathSeparator (rev (chars path)) in
    let last := rev (take_while (fun c => negb (IsPathSeparator c)) stripped) in
    match last with
    | [] => "/"
    | _ => of_chars last
    end.

(* no separator in [s] *)
Definition sepfree (s : string) : bool :=
  forallb (fun c => negb (IsPathSeparator c)) (chars s).

(* a path element that Clean keeps as it is *)
Definition plain (s : string) : bool :=
  sepfree s && negb (String.eqb s "") && negb (String.eqb s ".") && negb (String.eqb s "..").

(** ** The file system and package [os]

    A file system maps a path name to the node it names: a regular file with
    its contents, or a directory.  Path names are the strings the program
    passes to [os], which in this program all come out of [filepath.Join]. *)
Inductive node :=
| Regular (data : list byte)
| Dir.

Abbreviation FS := (gmap string node).

Record FileInfo := { fi_name : string; fi_isdir : bool }.
Definition IsDir (fi : FileInfo) : bool := fi_isdir fi.

(* os.Stat (and os.Lstat: there are no symbolic links in the model) *)
Definition Stat (fs : FS) (name : string) : result FileInfo :=
  match fs !! name with
  | Some Dir => Ok {| fi_name := Base name; fi_isdir := true |}
  | Some (Regular _) => Ok {| fi_name := Base name; fi_isdir := false |}
  | None => Err (PathError "stat" name ENOENT)
  end.

(* The parent as os.MkdirAll finds it: skip the trailing separators, scan
   back over the last element, and take what is before its separator;
   [None] when the element sits at the root or in the working directory. *)
Definition parentOf (path : string) : option string :=
  let r := drop_while IsPathSeparator (rev (chars path)) in
  match drop_while (fun c => negb (IsPathSeparator c)) r with
  | _ :: c :: par => Some (of_chars (rev (c :: par)))
  | _ => None
  end.

(* What a system call that creates [path] requires of its parent. *)
Definition check_parent (op : string) (fs : FS) (path : string) : option error :=
  match parentOf path with
  | None => None
  | Some par =>
      match fs !! par with
      | Some Dir => None
      | Some (Regular _) => Some (PathError op path ENOTDIR)
      | None => Some (PathError op path ENOENT)
      end
  end.

(* os.Mkdir *)
Definition Mkdir (path : string) (fs : FS) : FS * option error :=
  match fs !! path with
  | Some _ => (fs, Some (PathError "mkdir" path EEXIST))
  | None =>
      match check_parent "mkdir" fs path with
      | Some e => (fs, Some e)
      | None => (<[path := Dir]> fs, None)
      end
  end.

(* os.MkdirAll; the recursion is on the parent, which is shorter. *)
Fixpoint MkdirAll_rec (fuel : nat) (path : string) (fs : FS) : FS * option error :=
  match Stat fs path with
  | Ok dir =>
      if IsDir dir then (fs, None)
      else (fs, Some (PathError "mkdir" path ENOTDIR))
  | Err _ =>
      let '(fs1, err) :=
        match fuel, parentOf path with
        | S k, Some par => MkdirAll_rec k par fs
        | _, _ => (fs, None)
        end in
      match err with
      | Some e => (fs1, Some e)
      | None =>
          match Mkdir path fs1 with
          | (fs2, Some e) =>
              match Stat fs2 path with
              | Ok dir => if IsDir dir then (fs2, None) else (fs2, Some e)
              | Err _ => (fs2, Some e)
              end
          | (fs2, None) => (fs2, None)
          end
      end
  end.

Definition MkdirAll (path : string) (fs : FS) : FS * option error :=
  MkdirAll_rec (String.length path) path fs.

(* os.Create: open for writing, create if absent, truncate if present.
   The open file is named by its path. *)
Definition Create (name : string) (fs : FS) : FS * result string :=
  match fs !! name with
  | Some Dir => (fs, Err (PathError "open" name EISDIR))
  | Some (Regular _) => (<[name := Regular []]> fs, Ok name)
  | None =>
      match check_parent "open" fs name with
      | Some e => (fs, Err e)
      | None => (<[name := Regular []]> fs, Ok name)
      end
  end.

(* An io.Reader: the bytes it yields, then io.EOF or a read error. *)
Record Reader := { rd_data : list byte; rd_err : option error }.

(* bytes.NewReader *)
Definition NewReader (b : list byte) : Reader := {| rd_data := b; rd_err := None |}.

(* w.Write(p) on an open file *)
Definition File_Write (w : string) (p : list byte) (fs : FS) : FS :=
  match fs !! w with
  | Some (Regular old) => <[w := Regular (old ++ p)]> fs
  | _ => fs
  end.

(* io.Copy(w, r): everything read is written, a read error is returned. *)
Definition io_Copy (w : string) (r : Reader) (fs : FS) : FS * option error :=
  (File_Write w (rd_data r) fs, rd_err r).

(* [path] itself or a name below it *)
Definition below (path name : string) : bool :=
  String.eqb name path || String.prefix (path ++ "/") name.

Definition endsWithDot (path : string) : bool :=
  match rev (chars path) with
  | [c] => Ascii.eqb c "."
  | c :: s :: _ => Ascii.eqb c "." && IsPathSeparator s
  | [] => false
  end.

(* os.RemoveAll: removes path and any children it contains; nil when the
   path does not exist or is empty; EINVAL for a path ending in a dot. *)
Definition RemoveAll (path : string) (fs : FS) : FS * option error :=
  if String.eqb path "" then (fs, None)
  else if endsWithDot path then (fs, Some (PathError "RemoveAll" path EINVAL))
  else (filter (fun kv => below path kv.1 = false) fs, None).

(* os.Open: open for reading.  The empty name names nothing; a directory
   opens as well, and reading from it fails. *)
Definition Open (name : string) (fs : FS) : result Reader :=
  if String.eqb name "" then Err (PathError "open" name ENOENT)
  else
    match fs !! name with
    | Some (Regular b) => Ok (NewReader b)
    | Some Dir => Ok {| rd_data := []; rd_err := Some (PathError "read" name EISDIR) |}
    | None => Err (PathError "open" name ENOENT)
    end.

(* os.WriteFile: create or truncate, write, close *)
Definition WriteFile (name : string) (data : list byte) (fs : FS) : FS * option error :=
  match Create name fs with
  | (fs1, Err e) => (fs1, Some e)
  | (fs1, Ok w) => (File_Write w data fs1, None)
  end.

(** ** The file getter ([pkg/artifact/file/getter/file.go]) *)
Module url.
(* net/url.URL, the fields the getter reads *)
Record URL := { Scheme : string; Host : string; Path : string }.

(* url.Parse of a source that is a path: no scheme, no authority, and
   nothing to unescape *)
Definition ofPath (source : string) : URL :=
  {| Scheme := ""; Host := ""; Path := source |}.
End url.

Module File.
Definition path (u : url.URL) : string :=
  Join [url.Host u; url.Path u].

Definition Name (u : url.URL) : string :=
  Base (path u).

Definition Detect (fs : FS) (u : url.URL) : bool :=
  if (String.length (path u) =? 0)%nat then false
  else
    match Stat fs (path u) with
    | Err _ => false
    | Ok fi => negb (IsDir fi)
    end.

Definition Open (fs : FS) (u : url.URL) : result Reader :=
  Open (path u) fs.
End File.

(** ** The fixture of the getter's tests ([getter_test.go]) *)
Module getter_test.
Definition rootDir : string := "gettertests".
Definition fileWithExt : string := Join [rootDir; "file.yaml"].

(* setup: the directory, then an empty file in it; an error ends the test *)
Definition setup (fs : FS) : FS * option error :=
  match MkdirAll rootDir fs with
  | (fs1, Some err) => (fs1, Some err)
  | (fs1, None) => WriteFile fileWithExt [] fs1
  end.

(* the function setup returns *)
Definition teardown (fs : FS) : FS :=
  (RemoveAll rootDir fs).1.
End getter_test.

(** ** The types of the store's collaborators *)
Module v1.
(* v1.Hash *)
Record Hash := { Algorithm : string; Hex : string }.

(* v1.SHA256 over the bytes of a reader *)
Definition SHA256 (b : list byte) : Hash :=
  {| Algorithm := "sha256"; Hex := EncodeToString (SHA256.Sum256 b) |}.

(* The v1.Layer interface, by the two methods the store calls.  A layer
   is either some implementation, given by what its methods return, or the
   cache's wrapper around another layer. *)
Inductive Layer :=
| layerOf (digest : result Hash) (compressed : result Reader)
| lazyLayer (inner : Layer).

Fixpoint Digest (l : Layer) : result Hash :=
  match l with
  | layerOf d _ => d
  | lazyLayer inner => Digest inner
  end.

(* v1.Descriptor *)
Module Descriptor.
Record t := {
  MediaType : string; Size : Z; Digest : Hash;
  URLs : list string; Annotations : gmap string string }.
End Descriptor.

(* v1.Manifest *)
Record Manifest := {
  SchemaVersion : Z;
  MediaType : string;
  Config : Descriptor.t;
  Layers : list Descriptor.t;
  Annotations : gmap string string }.
End v1.

Module static.
(* static.NewLayer(b, mt): the digest is computed from the bytes at each
   call of Digest(); the media type plays no part in writing. *)
Definition NewLayer (b : list byte) : v1.Layer :=
  v1.layerOf (Ok (v1.SHA256 b)) (Ok (NewReader b)).
End static.

Module digest.
(* digest.FromBytes: the canonical algorithm is SHA-256 *)
Definition FromBytes (p : list byte) : string :=
  "sha256:" ++ EncodeToString (SHA256.Sum256 p).
End digest.

Module ocispec.
Definition AnnotationRefName : string := "org.opencontainers.image.ref.name".

Record PlatformT := { Architecture : string; OS : string }.

Record Descriptor := {
  MediaType : string;
  Digest : string;
  Size : Z;
  URLs : list string;
  Annotations : gmap string string;
  Platform : option PlatformT }.

(* ocispec.Descriptor{} *)
Definition zero : Descriptor :=
  {| MediaType := ""; Digest := ""; Size := 0; URLs := [];
     Annotations := ∅; Platform := None |}.
End ocispec.

Module artifacts.
(* artifacts.OCI, by what its methods return *)
Record OCI := {
  Manifest : result v1.Manifest;
  RawConfig : result (list byte);
  Layers : result (list v1.Layer) }.

(* artifacts.OCICollection; Contents() is a map, given here as its
   entries in the order in which the range statement visits them. *)
Record OCICollection := { Contents : result (list (string * OCI)) }.
End artifacts.

(** ** The cache layer (package [pkg/layer])

    The package is not part of the sources at hand; what follows is written
    from sections 4.2 and 9 of the specification. *)
Module layer.
(** Modelled from the spec: [layer.Cache], a store of bytes under keys
    ([get(key) -> bytes, bool], [put(key, bytes) -> error]), here a finite
    map. *)
Abbreviation Cache := (gmap string (list byte)).

(** Modelled from the spec: the cache key of a layer, derived from its
    digest. *)
Definition key (h : v1.Hash) : string :=
  v1.Algorithm h ++ ":" ++ v1.Hex h.

(** Modelled from the spec: [layer.OCICache], the wrapper over an
    artifact's layer list; the manifest and the config are passed through. *)
Definition OCICache (o : artifacts.OCI) : artifacts.OCI :=
  {| artifacts.Manifest := artifacts.Manifest o;
     artifacts.RawConfig := artifacts.RawConfig o;
     artifacts.Layers :=
       match artifacts.Layers o with
       | Ok ls => Ok (map v1.lazyLayer ls)
       | Err e => Err e
       end |}.

(** Modelled from the spec: Compressed() of a layer, with the cache a
    wrapped layer consults and fills.  Producing a wrapped layer's bytes
    first computes the key; on a hit the stored bytes are supplied instead
    of the layer's own; on a miss the layer computes its bytes, and they are
    stored under the key when they could be read to the end. *)
Fixpoint Compressed (l : v1.Layer) (c : Cache) : Cache * result Reader :=
  match l with
  | v1.layerOf _ r => (c, r)
  | v1.lazyLayer inner =>
      match v1.Digest inner with
      | Err e => (c, Err e)
      | Ok h =>
          match c !! key h with
          | Some b => (c, Ok (NewReader b))
          | None =>
              match Compressed inner c with
              | (c1, Ok r) =>
                  match rd_err r with
                  | None => (<[key h := rd_data r]> c1, Ok r)
                  | Some _ => (c1, Ok r)
                  end
              | (c1, Err e) => (c1, Err e)
              end
          end
      end
  end.
End layer.

(** ** The index (package [pkg/content])

    The package is not part of the sources at hand; what follows is written
    from sections 3, 4.3 and 6 of the specification. *)
Module content.
(** Modelled from the spec: an index entry, [{reference, descriptor}]. *)
Record IndexEntry := { reference : string; descriptor : ocispec.Descriptor }.

(** Modelled from the spec: [content.OCI], the index of a store: an
    append-only ledger of entries, loaded into memory when the store is
    opened and changed in memory by every add. *)
Record OCI := { root : string; index : list IndexEntry }.

Section Index.
(* the serialization of the index file *)
Variable encodeIndex : list IndexEntry -> list byte.

(** Modelled from the spec: the index is persisted to [<root>/index.json]. *)
Definition SaveIndex (o : OCI) (fs : FS) : FS * option error :=
  match Create (Join [root o; "index.json"]) fs with
  | (fs1, Err e) => (fs1, Some e)
  | (fs1, Ok w) => io_Copy w (NewReader (encodeIndex (index o))) fs1
  end.

(** Modelled from the spec: [append(reference, descriptor) -> error], with
    a persist on every append.  A record is added at the end, also for a
    reference that is already there.  The call site passes the descriptor
    alone: the reference is its reference-name annotation, and a descriptor
    without one is refused. *)
Definition AddIndex (o : OCI) (desc : ocispec.Descriptor) (fs : FS)
  : OCI * FS * option error :=
  match ocispec.Annotations desc !! ocispec.AnnotationRefName with
  | None => (o, fs, Some (errorString "descriptor must contain a reference name"))
  | Some ref =>
      let o' := {| root := root o;
                   index := index o ++ [{| reference := ref; descriptor := desc |}] |} in
      let '(fs1, err) := SaveIndex o' fs in
      (o', fs1, err)
  end.
End Index.

(** Modelled from the spec: [walk(visit)] iterates the entries in index
    order and stops at the first error of the visitor, which it propagates.
    The visitor runs on a state [S] that it may change. *)
Fixpoint walk {S : Type} (fn : string -> ocispec.Descriptor -> S -> S * option error)
    (entries : list IndexEntry) (s : S) : S * option error :=
  match entries with
  | [] => (s, None)
  | e :: rest =>
      match fn (reference e) (descriptor e) s with
      | (s1, Some err) => (s1, Some err)
      | (s1, None) => walk fn rest s1
      end
  end.

(** Modelled from the spec: [Walk], the walk over the index of a store. *)
Definition Walk {S : Type} (o : OCI)
    (fn : string -> ocispec.Descriptor -> S -> S * option error) (s : S)
    : S * option error :=
  walk fn (index o) s.


(** Modelled from the spec: a blob lives at [<root>/blobs/<algorithm>/<hex>]. *)
Definition blobPath (o : OCI) (h : v1.Hash) : string :=
  Join [root o; "blobs"; v1.Algorithm h; v1.Hex h].

End content.

(** ** The layout store *)
Record Layout := {
  OCI : content.OCI;
  Root : string;
  cache : option layer.Cache }.

Definition with_cache (l : Layout) (c : option layer.Cache) : Layout :=
  {| OCI := OCI l; Root := Root l; cache := c |}.

Definition with_OCI (l : Layout) (o : content.OCI) : Layout :=
  {| OCI := o; Root := Root l; cache := cache l |}.

(* Options / WithCache *)
Definition WithCache (c : layer.Cache) (l : Layout) : Layout :=
  with_cache l (Some c).

Definition Options := Layout -> Layout.

Section Construct.
(* content.NewOCI and the LoadIndex method of its store, of a package that
   is not part of the sources at hand: the store they give, or their error *)
Variable NewOCI : string -> FS -> FS * result content.OCI.
Variable LoadIndex : content.OCI -> FS -> FS * result content.OCI.

Definition NewLayout (rootdir : string) (opts : list Options) (fs : FS)
  : FS * result Layout :=
  match NewOCI rootdir fs with
  | (fs1, Err err) => (fs1, Err (wrapError "new oci: " err))
  | (fs1, Ok ociStore) =>
      match LoadIndex ociStore fs1 with
      | (fs2, Err err) => (fs2, Err (wrapError "load index: " err))
      | (fs2, Ok ociStore) =>
          let l := {| Root := rootdir; OCI := ociStore; cache := None |} in
          (fs2, Ok (fold_left (fun l opt => opt l) opts l))
      end
  end.
End Construct.

(* layer.Compressed() as writeLayer calls it: a wrapped layer works on the
   cache the store was configured with; in a store without one it finds
   nothing cached and keeps nothing. *)
Definition Compressed (l : Layout) (lyr : v1.Layer) : Layout * result Reader :=
  match cache l with
  | Some c => let '(c1, r) := layer.Compressed lyr c in (with_cache l (Some c1), r)
  | None => let '(_, r) := layer.Compressed lyr ∅ in (l, r)
  end.

Definition blobDir (l : Layout) (d : v1.Hash) : string :=
  Join [Root l; "blobs"; v1.Algorithm d].

Definition blobPath (l : Layout) (d : v1.Hash) : string :=
  Join [blobDir l d; v1.Hex d].

Definition writeLayer (l : Layout) (lyr : v1.Layer) (fs : FS)
  : Layout * FS * option error :=
  match v1.Digest lyr with
  | Err e => (l, fs, Some e)
  | Ok d =>
      match Compressed l lyr with
      | (l1, Err e) => (l1, fs, Some e)
      | (l1, Ok r) =>
          let dir := Join [Root l; "blobs"; v1.Algorithm d] in
          let '(fs1, err) := MkdirAll dir fs in
          if match err with Some e => negb (IsExist e) | None => false end
          then (l1, fs1, err)
          else
            let blobPath := Join [dir; v1.Hex d] in
            (* Skip entirely if something exists, assume layer is present already *)
            match Stat fs1 blobPath with
            | Ok _ => (l1, fs1, None)
            | Err _ =>
                match Create blobPath fs1 with
                | (fs2, Err e) => (l1, fs2, Some e)
                | (fs2, Ok w) =>
                    let '(fs3, err) := io_Copy w r fs2 in
                    (l1, fs3, err)
                end
            end
      end
  end.

Definition writeBlobData (l : Layout) (data : list byte) (fs : FS)
  : Layout * FS * option error :=
  let blob := static.NewLayer data in
  writeLayer l blob fs.

(* errgroup.Group: every function passed to Go runs, Wait returns the first
   error.  The layer writes take effect one after the other, in the order
   [tasks] lists them; the results are kept in that order. *)
Fixpoint errgroup_Go (l : Layout) (tasks : list v1.Layer) (fs : FS)
  : Layout * FS * list (option error) :=
  match tasks with
  | [] => (l, fs, [])
  | lyr :: rest =>
      let '(l1, fs1, err) := writeLayer l lyr fs in
      let '(l2, fs2, errs) := errgroup_Go l1 rest fs1 in
      (l2, fs2, err :: errs)
  end.

Fixpoint errgroup_Wait (errs : list (option error)) : option error :=
  match errs with
  | [] => None
  | Some e :: _ => Some e
  | None :: rest => errgroup_Wait rest
  end.

(* the tasks at the positions [order] lists *)
Definition pick {A : Type} (order : list nat) (tasks : list A) : list A :=
  omap (fun i => tasks !! i) order.




(* the artifact AddOCI works on: wrapped when a cache is configured *)
Definition offered (l : Layout) (oci : artifacts.OCI) : artifacts.OCI :=
  match cache l with
  | Some _ => layer.OCICache oci
  | None => oci
  end.

(* the descriptor AddOCI builds over the manifest bytes *)
Definition manifestDescriptor (m : v1.Manifest) (mdata : list byte) (ref : string)
  : ocispec.Descriptor :=
  {| ocispec.MediaType := v1.MediaType m;
     ocispec.Digest := digest.FromBytes mdata;
     ocispec.Size := Z.of_nat (length mdata);
     ocispec.Annotations := {[ ocispec.AnnotationRefName := ref ]};
     ocispec.URLs := [];
     ocispec.Platform := None |}.

Section Store.
(* json.Marshal at type *v1.Manifest *)
Variable Marshal : v1.Manifest -> result (list byte).
(* the serialization of the index file *)
Variable encodeIndex : list content.IndexEntry -> list byte.
(* The order in which the layer writes of one errgroup take effect:
   for n functions passed to Go, a list of their positions. *)
Variable schedule : nat -> list nat.

(* what AddOCI returns on failure *)
Definition fail (l : Layout) (fs : FS) (prefix : string) (e : error)
  : Layout * FS * (ocispec.Descriptor * option error) :=
  (l, fs, (ocispec.zero, Some (wrapError prefix e))).

Definition AddOCI (l : Layout) (fs : FS) (oci : artifacts.OCI) (ref : string)
  : Layout * FS * (ocispec.Descriptor * option error) :=
  let oci := match cache l with
             | Some _ => layer.OCICache oci
             | None => oci
             end in
  (* Write manifest blob *)
  match artifacts.Manifest oci with
  | Err e => fail l fs "manifest: " e
  | Ok m =>
  match Marshal m with
  | Err e => fail l fs "marshal manifest: " e
  | Ok mdata =>
  match writeBlobData l mdata fs with
  | (l1, fs1, Some e) => fail l1 fs1 "write blob data " e
  | (l1, fs1, None) =>
  (* Write config blob *)
  match artifacts.RawConfig oci with
  | Err e => fail l1 fs1 "raw config: " e
  | Ok cdata =>
  (* static.NewLayer(cdata, "") is called here and its value dropped *)
  match writeBlobData l1 cdata fs1 with
  | (l2, fs2, Some e) => fail l2 fs2 "write blob data: " e
  | (l2, fs2, None) =>
  (* write blob layers concurrently *)
  match artifacts.Layers oci with
  | Err e => fail l2 fs2 "layers: " e
  | Ok layers =>
  let '(l3, fs3, errs) := errgroup_Go l2 (pick (schedule (length layers)) layers) fs2 in
  match errgroup_Wait errs with
  | Some e => fail l3 fs3 "write layers: " e
  | None =>
  (* Build index *)
  let idx := {| ocispec.MediaType := v1.MediaType m;
                ocispec.Digest := digest.FromBytes mdata;
                ocispec.Size := Z.of_nat (length mdata);
                ocispec.Annotations := {[ ocispec.AnnotationRefName := ref ]};
                ocispec.URLs := [];
                ocispec.Platform := None |} in
  match content.AddIndex encodeIndex (OCI l3) idx fs3 with
  | (o, fs4, Some e) => fail (with_OCI l3 o) fs4 "add index: " e
  | (o, fs4, None) => (with_OCI l3 o, fs4, (idx, None))
  end end end end end end end end.

(* the loop of AddOCICollection *)
Fixpoint addEach (l : Layout) (fs : FS) (cnts : list (string * artifacts.OCI))
    (descs : list ocispec.Descriptor)
  : Layout * FS * (list ocispec.Descriptor * option error) :=
  match cnts with
  | [] => (l, fs, (descs, None))
  | (ref, oci) :: rest =>
      match AddOCI l fs oci ref with
      | (l1, fs1, (_, Some err)) => (l1, fs1, ([], Some err))
      | (l1, fs1, (desc, None)) => addEach l1 fs1 rest (descs ++ [desc])
      end
  end.

Definition AddOCICollection (l : Layout) (fs : FS) (collection : artifacts.OCICollection)
  : Layout * FS * (list ocispec.Descriptor * option error) :=
  match artifacts.Contents collection with
  | Err err => (l, fs, ([], Some err))
  | Ok cnts => addEach l fs cnts []
  end.

End Store.

(* Flush deletes the oci-layout content only. *)
Definition Flush (l : Layout) (fs : FS) : FS * option error :=
  let blobs := Join [Root l; "blobs"] in
  match RemoveAll blobs fs with
  | (fs1, Some err) => (fs1, Some err)
  | (fs1, None) =>
      let index := Join [Root l; "index.json"] in
      match RemoveAll index fs1 with
      | (fs2, Some err) => (fs2, Some err)
      | (fs2, None) =>
          let layout := Join [Root l; "oci-layout"] in
          match RemoveAll layout fs2 with
          | (fs3, Some err) => (fs3, Some err)
          | (fs3, None) => (fs3, None)
          end
      end
  end.

Section Transfer.
(* target.Target: the state of the store copied to *)
Variable Target : Type.
(* oras.Copy(ctx, from, ref, to, toRef), with the store and the file
   system it reads from *)
Variable oras_Copy :
  content.OCI -> FS -> string -> Target -> string -> Target * result ocispec.Descriptor.

Definition Copy (l : Layout) (fs : FS) (ref : string) (dst : Target) (toRef : string)
  : Target * (ocispec.Descriptor * option error) :=
  match oras_Copy (OCI l) fs ref dst toRef with
  | (dst1, Err err) =>
      (dst1, (ocispec.zero,
             Some (wrapError ("oras copy: ref " ++ ref ++ ", toRef " ++ toRef ++ ": ") err)))
  | (dst1, Ok desc) => (dst1, (desc, None))
  end.

(* the function CopyAll passes to Walk; its state is the target and the
   descriptors collected so far *)
Definition copyEntry (l : Layout) (fs : FS) (toMapper : option (string -> result string))
    (reference : string) (desc : ocispec.Descriptor)
    (s : Target * list ocispec.Descriptor)
  : (Target * list ocispec.Descriptor) * option error :=
  let '(dst, descs) := s in
  match match toMapper with
        | Some f => f reference
        | None => Ok ""
        end with
  | Err err => (s, Some (wrapError "mapper: " err))
  | Ok toRef =>
      match Copy l fs reference dst toRef with
      | (dst1, (_, Some err)) => ((dst1, descs), Some (wrapError "layout copy: " err))
      | (dst1, (desc, None)) => ((dst1, (descs ++ [desc])%list), None)
      end
  end.

Definition CopyAll (l : Layout) (fs : FS) (dst : Target)
    (toMapper : option (string -> result string))
  : Target * (list ocispec.Descriptor * option error) :=
  match content.Walk (OCI l) (copyEntry l fs toMapper) (dst, []) with
  | ((dst1, _), Some err) => (dst1, ([], Some (wrapError "walk: " err)))
  | ((dst1, descs), None) => (dst1, (descs, None))
  end.
End Transfer.

Section Probe.
(* json.NewDecoder(rc).Decode(&m) at the type of m, then m.Config.MediaType *)
Variable Decode : Reader -> result string.

End Probe.

(** ** Notions used in the statements *)

(* The output of Clean's loop, last element first: plain elements above
   the ".." elements a relative path may start with. *)
Definition good_stack (rooted : bool) (st : list string) : Prop :=
  exists names n, st = (names ++ repeat ".." n)%list
    /\ Forall (fun e => plain e = true) names /\ (rooted = true -> n = 0%nat).

(* A cleaned path whose last element is [x] *)
Definition cleanpath (d x : string) : Prop :=
  exists rooted fw, good_stack rooted (rev (fw ++ [x])) /\ d = render rooted (fw ++ [x]).

(* The outcomes of writeLayer on a layer whose digest is [d]: the layer
   gives no bytes; the blob directory cannot be made; something is at the
   blob path already; the file cannot be created; the file is written. *)
Inductive writeLayer_outcome (l : Layout) (lyr : v1.Layer) (d : v1.Hash) (fs : FS)
  : Layout -> FS -> option error -> Prop :=
| wl_no_bytes l1 e :
    Compressed l lyr = (l1, Err e) ->
    writeLayer_outcome l lyr d fs l1 fs (Some e)
| wl_no_dir l1 r fs1 e :
    Compressed l lyr = (l1, Ok r) ->
    MkdirAll (blobDir l d) fs = (fs1, Some e) ->
    writeLayer_outcome l lyr d fs l1 fs1 (Some e)
| wl_present l1 r fs1 :
    Compressed l lyr = (l1, Ok r) ->
    MkdirAll (blobDir l d) fs = (fs1, None) ->
    is_Some (fs1 !! blobPath l d) ->
    writeLayer_outcome l lyr d fs l1 fs1 None
| wl_no_file l1 r fs1 e :
    Compressed l lyr = (l1, Ok r) ->
    MkdirAll (blobDir l d) fs = (fs1, None) ->
    fs1 !! blobPath l d = None ->
    check_parent "open" fs1 (blobPath l d) = Some e ->
    writeLayer_outcome l lyr d fs l1 fs1 (Some e)
| wl_written l1 r fs1 :
    Compressed l lyr = (l1, Ok r) ->
    MkdirAll (blobDir l d) fs = (fs1, None) ->
    fs1 !! blobPath l d = None ->
    check_parent "open" fs1 (blobPath l d) = None ->
    writeLayer_outcome l lyr d fs l1
      (<[blobPath l d := Regular (rd_data r)]> fs1) (rd_err r).





(** ** Stand-ins for running the store on examples

    [json.Marshal] and the index serialization are parameters of the store;
    the examples run it with a serialization that writes the media type of
    the manifest, an index file that lists the references, and a group whose
    functions take effect in the order they were started. *)
Definition store0 : Layout :=
  {| OCI := {| content.root := "/store"; content.index := [] |};
     Root := "/store"; cache := None |}.

Definition disk0 : FS := {[ "/store" := Dir ]}.

Definition sampleMarshal (m : v1.Manifest) : result (list byte) :=
  Ok (bytes_of_string (v1.MediaType m)).

Definition sampleEncode (idx : list content.IndexEntry) : list byte :=
  bytes_of_string (join_sep (map content.reference idx)).

Definition inOrder (n : nat) : list nat := seq 0 n.

Definition sampleManifest : v1.Manifest :=
  {| v1.SchemaVersion := 2;
     v1.MediaType := "application/vnd.oci.image.manifest.v1+json";
     v1.Config := {| v1.Descriptor.MediaType := "application/vnd.oci.image.config.v1+json";
                     v1.Descriptor.Size := 2;
                     v1.Descriptor.Digest := v1.SHA256 (bytes_of_string "{}");
                     v1.Descriptor.URLs := [];
                     v1.Descriptor.Annotations := ∅ |};
     v1.Layers := [];
     v1.Annotations := ∅ |}.

Definition artifactOf (layers : list v1.Layer) : artifacts.OCI :=
  {| artifacts.Manifest := Ok sampleManifest;
     artifacts.RawConfig := Ok (bytes_of_string "{}");
     artifacts.Layers := Ok layers |}.

(* a layer of the given content whose bytes cannot be read *)
Definition unreadable (content : string) : v1.Layer :=
  v1.layerOf (Ok (v1.SHA256 (bytes_of_string content))) (Err (errorString "read failed")).

Definition sampleAddOCI := AddOCI sampleMarshal sampleEncode inOrder.
Definition sampleAddOCICollection := AddOCICollection sampleMarshal sampleEncode inOrder.

(* a target that records the copies made into it, and a copy that succeeds
   for the references the index knows *)
Definition sampleCopy (o : content.OCI) (fs : FS) (ref : string)
    (dst : list (string * string)) (toRef : string)
  : list (string * string) * result ocispec.Descriptor :=
  match find (fun e => String.eqb (content.reference e) ref) (content.index o) with
  | Some e => ((dst ++ [(ref, toRef)])%list, Ok (content.descriptor e))
  | None => (dst, Err (errorString "not found"))
  end.

(* a mapper that knows no name for "b" *)
Definition sampleMapper (reference : string) : result string :=
  if String.eqb reference "b" then Err (errorString "no mapping")
  else Ok ("registry/" ++ reference).

Definition entryOf (ref : string) : content.IndexEntry :=
  {| content.reference := ref;
     content.descriptor := manifestDescriptor sampleManifest (bytes_of_string ref) ref |}.

Definition store3 : Layout :=
  {| OCI := {| content.root := "/store";
               content.index := [entryOf "a"; entryOf "b"; entryOf "c"] |};
     Root := "/store"; cache := None |}.


(* a cache that holds other bytes under the key of "layer-a" *)
Definition staleCache : layer.Cache :=
  {[ layer.key (v1.SHA256 (bytes_of_string "layer-a")) := bytes_of_string "stale" ]}.

(* a cache that holds the bytes of "layer-a" under its key *)
Definition warmCache : layer.Cache :=
  {[ layer.key (v1.SHA256 (bytes_of_string "layer-a")) := bytes_of_string "layer-a" ]}.


(* a group whose functions take effect in the reverse of the order in which
   they were started *)
Definition reversed (n : nat) : list nat := rev (seq 0 n).

(* a layer with the digest of [content] whose bytes break off after [read] *)
Definition truncated (content read : string) : v1.Layer :=
  v1.layerOf (Ok (v1.SHA256 (bytes_of_string content)))
             (Ok {| rd_data := bytes_of_string read;
                    rd_err := Some (errorString "unexpected EOF") |}).

(* a layer that claims the digest of [content] and yields [other] *)
Definition mislabelled (content other : string) : v1.Layer :=
  v1.layerOf (Ok (v1.SHA256 (bytes_of_string content)))
             (Ok (NewReader (bytes_of_string other))).

(* a copy that the target refuses for the reference "b" *)
Definition strictCopy (o : content.OCI) (fs : FS) (ref : string)
    (dst : list (string * string)) (toRef : string)
  : list (string * string) * result ocispec.Descriptor :=
  if String.eqb ref "b" then (dst, Err (errorString "denied"))
  else sampleCopy o fs ref dst toRef.

(* an index store that starts empty and has nothing to load *)
Definition sampleNewOCI (rootdir : string) (fs : FS) : FS * result content.OCI :=
  (fs, Ok {| content.root := rootdir; content.index := [] |}).

Definition sampleLoadIndex (o : content.OCI) (fs : FS) : FS * result content.OCI :=
  (fs, Ok o).

(* the blob path of "abc" in the example store *)
Definition abcPath : string :=
  "/store/blobs/sha256/ba7816bf8f01cfea414140de5dae2223b00361a396177a9cb410ff61f20015ad".


Ltac evaluated := vm_compute; first [reflexivity | exact I].

(** * Properties *)

(** ** The digest function agrees with the published test vectors *)
Example sha256_abc :
  EncodeToString (SHA256.Sum256 (bytes_of_string "abc"))
  = "ba7816bf8f01cfea414140de5dae2223b00361a396177a9cb410ff61f20015ad".
Proof. vm_compute. reflexivity. Qed.

Example sha256_empty :
  EncodeToString (SHA256.Sum256 [])
  = "e3b0c44298fc1c149afbf4c8996fb92427ae41e4649b934ca495991b7852b855".
Proof. vm_compute. reflexivity. Qed.

Example Clean_samples :
  map Clean ["a//b/../c/./d/"; "/../a"; "../../a/.."; ""; "/"; "a/.."]
  = ["a/c/d"; "/a"; "../.."; "."; "/"; "."].
Proof. reflexivity. Qed.

Example Join_samples :
  map Join [[""; ""]; [""; "a"]; ["/root"; "blobs"; "sha256"]; ["host"; "/p/q.txt"]]
  = [""; "a"; "/root/blobs/sha256"; "host/p/q.txt"].
Proof. reflexivity. Qed.

Example Base_samples :
  map Base [""; "/"; "a/b/"; "gettertests/file.yaml"; "gettertests"]
  = ["."; "/"; "b"; "file.yaml"; "gettertests"].
Proof. reflexivity. Qed.

(** ** [filepath.Clean] and [filepath.Join] on cleaned paths *)

Lemma split_sep_nonempty (s : string) : split_sep s <> [].
Proof.
  destruct s as [|c r]; simpl; [discriminate|].
  destruct (IsPathSeparator c); [discriminate|].
  destruct (split_sep r); discriminate.
Qed.

Lemma split_sep_app (a b : string) :
  split_sep (a ++ String Separator b) = (split_sep a ++ split_sep b)%list.
Proof.
  induction a as [|c a IH]; simpl.
  - reflexivity.
  - destruct (IsPathSeparator c).
    + by rewrite IH.
    + rewrite IH. pose proof (split_sep_nonempty a) as Hne.
      destruct (split_sep a); [done|]. reflexivity.
Qed.

Lemma split_sep_sepfree (s : string) : sepfree s = true -> split_sep s = [s].
Proof.
  unfold sepfree. induction s as [|c r IH]; simpl; [done|].
  intros [Hc Hr]%andb_true_iff. apply negb_true_iff in Hc. rewrite Hc.
  by rewrite (IH Hr).
Qed.

Lemma split_sep_Forall (s : string) : Forall (fun e => sepfree e = true) (split_sep s).
Proof.
  induction s as [|c r IH]; simpl.
  - by constructor.
  - destruct (IsPathSeparator c) eqn:Hc.
    + by constructor.
    + pose proof (split_sep_nonempty r) as Hne.
      destruct (split_sep r) as [|h t]; [done|].
      inversion IH; subst. constructor; [|done].
      unfold sepfree. simpl. rewrite Hc. simpl. done.
Qed.

Lemma plain_step (rooted : bool) (out : list string) (x : string) :
  plain x = true -> clean_step rooted out x = x :: out.
Proof.
  unfold plain, clean_step.
  intros [[[_ H1]%andb_true_iff H2]%andb_true_iff H3]%andb_true_iff.
  apply negb_true_iff in H1, H2, H3. by rewrite H1, H2, H3.
Qed.

Lemma good_stack_nil rooted : good_stack rooted [].
Proof. exists [], 0%nat. repeat split; auto. Qed.

Lemma plain_not_dotdot x : plain x = true -> String.eqb x ".." = false.
Proof.
  unfold plain. intros [_ H]%andb_true_iff. by apply negb_true_iff in H.
Qed.

Lemma clean_step_good rooted st e :
  good_stack rooted st -> sepfree e = true -> good_stack rooted (clean_step rooted st e).
Proof.
  intros (names & n & -> & Hnames & Hn) He. unfold clean_step.
  destruct (String.eqb e "") eqn:E1; simpl; [by exists names, n|].
  destruct (String.eqb e ".") eqn:E2; simpl; [by exists names, n|].
  destruct (String.eqb e "..") eqn:E3.
  - apply String.eqb_eq in E3 as ->.
    destruct names as [|a names]; simpl.
    + destruct n as [|n]; simpl.
      * destruct rooted; [apply good_stack_nil|].
        exists [], 1%nat. repeat split; auto. discriminate.
      * exists [], (S (S n)). repeat split; auto.
        intros Hr. by specialize (Hn Hr).
    + inversion Hnames; subst. rewrite plain_not_dotdot by done.
      by exists names, n.
  - exists (e :: names), n. repeat split; auto. constructor; [|done].
    unfold plain. by rewrite He, E1, E2, E3.
Qed.

Lemma fold_clean_good rooted elems st :
  good_stack rooted st -> Forall (fun e => sepfree e = true) elems ->
  good_stack rooted (fold_left (clean_step rooted) elems st).
Proof.
  revert st. induction elems as [|e elems IH]; intros st Hst Hel; simpl; [done|].
  inversion Hel; subst. apply IH; [|done]. by apply clean_step_good.
Qed.

Lemma fold_clean_dots_from (n m : nat) :
  fold_left (clean_step false) (repeat ".." n) (repeat ".." m) = repeat ".." (n + m).
Proof.
  revert m. induction n as [|n IH]; intros m; [done|].
  simpl fold_left.
  replace (clean_step false (repeat ".." m) "..") with (repeat ".." (S m))
    by (by destruct m).
  rewrite IH. f_equal. lia.
Qed.

Lemma fold_clean_dots rooted n :
  (rooted = true -> n = 0%nat) ->
  fold_left (clean_step rooted) (repeat ".." n) [] = repeat ".." n.
Proof.
  intros Hn. destruct rooted.
  - by rewrite (Hn eq_refl).
  - change (@nil string) with (repeat ".." 0) at 1.
    rewrite (fold_clean_dots_from n 0). f_equal. lia.
Qed.

Lemma fold_clean_names rooted names st :
  Forall (fun e => plain e = true) names ->
  fold_left (clean_step rooted) (rev names) st = (names ++ st)%list.
Proof.
  induction names as [|a names IH]; intros H; simpl; [done|].
  inversion H; subst. rewrite fold_left_app. simpl. rewrite IH by done.
  by apply plain_step.
Qed.

(* Clean's loop leaves a cleaned list of elements as it is *)
Lemma norm_good rooted st :
  good_stack rooted st -> fold_left (clean_step rooted) (rev st) [] = st.
Proof.
  intros (names & n & -> & Hnames & Hn).
  rewrite rev_app_distr, fold_left_app, rev_repeat.
  rewrite fold_clean_dots by done. by apply fold_clean_names.
Qed.

Lemma plain_sepfree x : plain x = true -> sepfree x = true /\ x <> "".
Proof.
  unfold plain. intros [[[H0 H1]%andb_true_iff _]%andb_true_iff _]%andb_true_iff.
  split; [done|]. intros ->. done.
Qed.

Lemma good_stack_elems rooted st :
  good_stack rooted st -> Forall (fun e => sepfree e = true /\ e <> "") st.
Proof.
  intros (names & n & -> & Hnames & _). apply Forall_app. split.
  - eapply Forall_impl; [exact Hnames|]. intros x. apply plain_sepfree.
  - apply Forall_forall. intros x Hx%list_elem_of_In%repeat_spec. by subst.
Qed.

Lemma join_sep_cons (e : string) (rest : list string) :
  rest <> [] -> join_sep (e :: rest) = e ++ String Separator (join_sep rest).
Proof. destruct rest; [done|]. reflexivity. Qed.

Lemma append_assoc (a b c : string) : (a ++ b) ++ c = a ++ (b ++ c).
Proof.
  induction a as [|x a IH]; [done|].
  change (String x ((a ++ b) ++ c) = String x (a ++ (b ++ c))). by rewrite IH.
Qed.

Lemma join_sep_snoc (fw : list string) (x : string) :
  fw <> [] -> join_sep (fw ++ [x]) = join_sep fw ++ String Separator x.
Proof.
  induction fw as [|e fw IH]; [done|]. intros _.
  destruct fw as [|e' fw]; [reflexivity|].
  change ((e :: e' :: fw) ++ [x])%list with (e :: ((e' :: fw) ++ [x]))%list.
  rewrite join_sep_cons by (simpl; discriminate).
  rewrite IH by done. rewrite (join_sep_cons e (e' :: fw)) by done.
  by rewrite append_assoc.
Qed.

Lemma split_join (fw : list string) :
  Forall (fun e => sepfree e = true) fw -> fw <> [] -> split_sep (join_sep fw) = fw.
Proof.
  induction fw as [|e fw IH]; [done|]. intros H _. inversion H; subst.
  destruct fw as [|e' fw]; [by apply split_sep_sepfree|].
  rewrite join_sep_cons by done. rewrite split_sep_app, IH by done.
  by rewrite split_sep_sepfree.
Qed.

Lemma is_rooted_app (a b : string) : a <> "" -> is_rooted (a ++ b) = is_rooted a.
Proof. by destruct a. Qed.

Lemma is_rooted_sepfree (e : string) : sepfree e = true -> is_rooted e = false.
Proof.
  destruct e as [|c e]; [done|]. unfold sepfree. simpl.
  intros [H _]%andb_true_iff. by apply negb_true_iff in H.
Qed.

Lemma is_rooted_join (fw : list string) :
  Forall (fun e => sepfree e = true /\ e <> "") fw -> fw <> [] ->
  is_rooted (join_sep fw) = false /\ join_sep fw <> "".
Proof.
  destruct fw as [|e fw]; [done|]. intros H _. inversion H as [|? ? [He Hne] ?]; subst.
  destruct fw as [|e' fw].
  - split; [by apply is_rooted_sepfree|done].
  - rewrite join_sep_cons by done. split.
    + rewrite is_rooted_app by done. by apply is_rooted_sepfree.
    + by destruct e.
Qed.

Lemma render_props (rooted : bool) (fw : list string) :
  good_stack rooted (rev fw) -> fw <> [] ->
  render rooted fw <> "" /\ is_rooted (render rooted fw) = rooted
  /\ split_sep (render rooted fw) = ((if rooted then [""] else []) ++ fw)%list.
Proof.
  intros Hg Hne. apply good_stack_elems in Hg. apply Forall_rev in Hg.
  rewrite rev_involutive in Hg.
  assert (Forall (fun e => sepfree e = true) fw) as Hsf.
  { eapply Forall_impl; [exact Hg|]. by intros ? [? ?]. }
  destruct (is_rooted_join fw Hg Hne) as [Hr Hn].
  unfold render. destruct rooted.
  - change ("/" ++ join_sep fw) with (String Separator (join_sep fw)).
    repeat split; [done|]. cbn. by rewrite split_join.
  - destruct fw; [done|]. repeat split; [done..|]. by rewrite split_join.
Qed.

Lemma render_snoc (rooted : bool) (fw : list string) (x : string) :
  fw <> [] -> render rooted (fw ++ [x]) = render rooted fw ++ String Separator x.
Proof.
  intros Hne. unfold render. destruct rooted.
  - rewrite join_sep_snoc by done. by rewrite append_assoc.
  - rewrite join_sep_snoc by done. destruct fw; [done|]. by destruct fw.
Qed.

(* Below a cleaned path, a plain element is appended as it is. *)
Lemma Clean_render_snoc (rooted : bool) (fw : list string) (x : string) :
  good_stack rooted (rev fw) -> fw <> [] -> plain x = true ->
  Clean (render rooted fw ++ String Separator x) = render rooted fw ++ String Separator x.
Proof.
  intros Hg Hne Hx. destruct (render_props rooted fw Hg Hne) as (Hn & Hr & Hs).
  unfold Clean.
  destruct (String.eqb_spec (render rooted fw ++ String Separator x) "") as [E|_].
  { by destruct (render rooted fw). }
  rewrite is_rooted_app, Hr by done.
  rewrite split_sep_app, Hs. rewrite split_sep_sepfree by (by apply plain_sepfree).
  unfold norm. rewrite !fold_left_app.
  assert (fold_left (clean_step rooted) (if rooted then [""] else []) [] = []) as ->
    by (by destruct rooted).
  rewrite <- (rev_involutive fw) at 1. rewrite norm_good by done.
  simpl. rewrite plain_step by done. simpl. rewrite rev_involutive.
  by apply render_snoc.
Qed.

Lemma Clean_last (t x : string) (X : list string) :
  t <> "" -> split_sep t = (X ++ [x])%list -> plain x = true -> cleanpath (Clean t) x.
Proof.
  intros Ht Hs Hx. unfold Clean.
  destruct (String.eqb_spec t "") as [|_]; [done|].
  pose proof (split_sep_Forall t) as Hall. rewrite Hs in Hall.
  apply Forall_app in Hall as [HX _].
  pose proof (fold_clean_good (is_rooted t) X [] (good_stack_nil _) HX) as Hg.
  exists (is_rooted t), (rev (fold_left (clean_step (is_rooted t)) X [])).
  unfold norm. rewrite Hs, fold_left_app. simpl. rewrite plain_step by done.
  split; [|reflexivity].
  rewrite rev_app_distr, rev_involutive. simpl.
  destruct Hg as (names & n & -> & Hnames & Hn).
  exists (x :: names), n. repeat split; auto.
Qed.

Lemma drop_while_snoc {A} (f : A -> bool) (l : list A) (x : A) :
  f x = false -> drop_while f (l ++ [x]) = (drop_while f l ++ [x])%list.
Proof.
  intros Hx. induction l as [|a l IH]; simpl; [by rewrite Hx|].
  by destruct (f a).
Qed.

Lemma Join_last (elems : list string) (x : string) :
  plain x = true -> cleanpath (Join (elems ++ [x])) x.
Proof.
  intros Hx. destruct (plain_sepfree x Hx) as [Hsf Hne].
  unfold Join. rewrite drop_while_snoc by (by apply String.eqb_neq).
  destruct (drop_while (fun e => String.eqb e "") elems) as [|e rest] eqn:Hd.
  - simpl. apply (Clean_last x x []); [done| |done]. by apply split_sep_sepfree.
  - change ((e :: rest) ++ [x])%list with (e :: (rest ++ [x]))%list.
    cbv iota beta.
    change (e :: (rest ++ [x]))%list with ((e :: rest) ++ [x])%list.
    rewrite join_sep_snoc by done.
    apply (Clean_last _ x (split_sep (join_sep (e :: rest)))); [| |done].
    + by destruct (join_sep (e :: rest)).
    + by rewrite split_sep_app, (split_sep_sepfree x).
Qed.

Lemma cleanpath_nonempty (d x : string) : cleanpath d x -> d <> "".
Proof.
  intros (rooted & fw & Hg & ->). apply render_props; [done|]. by destruct fw.
Qed.

(* filepath.Join(dir, x) is dir/x for a cleaned dir and a plain x *)
Lemma Join_cleanpath (d x y : string) :
  cleanpath d x -> plain y = true -> Join [d; y] = d ++ String Separator y.
Proof.
  intros Hd Hy. pose proof (cleanpath_nonempty _ _ Hd) as Hne.
  destruct Hd as (rooted & fw & Hg & ->).
  unfold Join. simpl drop_while.
  destruct (String.eqb_spec (render rooted (fw ++ [x])) "") as [|_]; [done|].
  change (join_sep [render rooted (fw ++ [x]); y])
    with (render rooted (fw ++ [x]) ++ String Separator y).
  apply Clean_render_snoc; [done| |done]. by destruct fw.
Qed.

Lemma cleanpath_suffix (d x : string) : cleanpath d x -> exists pre, d = pre ++ x.
Proof.
  intros (rooted & fw & Hg & ->).
  destruct fw as [|e fw].
  - destruct rooted; [by exists "/"|by exists ""].
  - rewrite render_snoc by done. exists (render rooted (e :: fw) ++ "/").
    by rewrite append_assoc.
Qed.

Lemma length_append (a b : string) :
  String.length (a ++ b) = (String.length a + String.length b)%nat.
Proof.
  induction a as [|x a IH]; [done|].
  change (S (String.length (a ++ b)) = S (String.length a + String.length b)).
  by rewrite IH.
Qed.

Lemma length_chars (s : string) : length (chars s) = String.length s.
Proof. induction s as [|c s IH]; simpl; [done|]. by rewrite <- IH. Qed.

Lemma length_of_chars (l : list ascii) : String.length (of_chars l) = length l.
Proof. induction l as [|c l IH]; simpl; [done|]. by rewrite <- IH. Qed.

Lemma drop_while_length {A} (f : A -> bool) (l : list A) :
  (length (drop_while f l) <= length l)%nat.
Proof.
  induction l as [|a l IH]; simpl; [lia|]. destruct (f a); simpl; lia.
Qed.

Lemma parentOf_shorter (path par : string) :
  parentOf path = Some par -> (String.length par < String.length path)%nat.
Proof.
  unfold parentOf.
  pose proof (drop_while_length IsPathSeparator (rev (chars path))) as H1.
  pose proof (drop_while_length (fun c => negb (IsPathSeparator c))
                (drop_while IsPathSeparator (rev (chars path)))) as H2.
  destruct (drop_while _ (drop_while _ _)) as [|s [|c rest]]; [done..|].
  intros [= <-]. rewrite length_of_chars, length_app, length_rev.
  rewrite length_rev, length_chars in H1. simpl in *. lia.
Qed.

Lemma hexdigit_other (b : byte) :
  IsPathSeparator (hexdigit (Byte.to_N b / 16)) = false
  /\ IsPathSeparator (hexdigit (Byte.to_N b mod 16)) = false
  /\ Ascii.eqb (hexdigit (Byte.to_N b / 16)) "." = false.
Proof. destruct b; vm_compute; auto. Qed.

Lemma EncodeToString_sepfree (bs : list byte) : sepfree (EncodeToString bs) = true.
Proof.
  induction bs as [|b bs IH]; [done|].
  destruct (hexdigit_other b) as (H1 & H2 & _).
  unfold sepfree in *. simpl. by rewrite H1, H2.
Qed.

Lemma EncodeToString_plain (bs : list byte) : bs <> [] -> plain (EncodeToString bs) = true.
Proof.
  destruct bs as [|b bs]; [done|]. intros _.
  pose proof (EncodeToString_sepfree (b :: bs)) as Hsf.
  destruct (hexdigit_other b) as (_ & _ & H3).
  unfold plain. rewrite Hsf. simpl. by rewrite H3.
Qed.

Lemma Sum256_length (msg : list byte) : length (SHA256.Sum256 msg) = 32%nat.
Proof.
  unfold SHA256.Sum256. by destruct (SHA256.blocks _ _ _).
Qed.

Lemma SHA256_plain (data : list byte) :
  plain (v1.Algorithm (v1.SHA256 data)) = true /\ plain (v1.Hex (v1.SHA256 data)) = true.
Proof.
  split; [reflexivity|]. apply EncodeToString_plain.
  pose proof (Sum256_length data). by destruct (SHA256.Sum256 data).
Qed.

Lemma blobPath_eq (l : Layout) (d : v1.Hash) :
  plain (v1.Algorithm d) = true -> plain (v1.Hex d) = true ->
  blobPath l d = blobDir l d ++ String Separator (v1.Hex d).
Proof.
  intros Ha Hh. unfold blobPath.
  apply (Join_cleanpath _ (v1.Algorithm d)); [|done].
  unfold blobDir. by apply (Join_last [Root l; "blobs"]).
Qed.

Lemma chars_app (a b : string) : chars (a ++ b) = (chars a ++ chars b)%list.
Proof.
  induction a as [|x a IH]; [done|].
  change (x :: chars (a ++ b) = x :: (chars a ++ chars b)%list). by rewrite IH.
Qed.

Lemma of_chars_chars (s : string) : of_chars (chars s) = s.
Proof. apply string_of_list_ascii_of_string. Qed.

Lemma drop_while_all {A} (f : A -> bool) (l r : list A) :
  forallb f l = true -> drop_while f (l ++ r) = drop_while f r.
Proof.
  induction l as [|a l IH]; simpl; [done|].
  intros [Ha Hl]%andb_true_iff. rewrite Ha. by apply IH.
Qed.

Lemma forallb_rev {A} (f : A -> bool) (l : list A) :
  forallb f (rev l) = forallb f l.
Proof.
  induction l as [|a l IH]; simpl; [done|].
  rewrite forallb_app, IH. simpl. rewrite andb_true_r. apply andb_comm.
Qed.

Lemma cleanpath_last (d x : string) : cleanpath d x -> sepfree x = true /\ x <> "".
Proof.
  intros (rooted & fw & Hg & _). apply good_stack_elems in Hg.
  rewrite rev_app_distr in Hg. simpl in Hg. by inversion Hg.
Qed.

Lemma drop_while_head {A} (f : A -> bool) (a : A) (l : list A) :
  f a = false -> drop_while f (a :: l) = a :: l.
Proof. simpl. by intros ->. Qed.

(* the parent of dir/y is dir *)
Lemma parentOf_child (d x y : string) :
  cleanpath d x -> plain y = true -> parentOf (d ++ String Separator y) = Some d.
Proof.
  intros Hd Hy. pose proof (cleanpath_nonempty _ _ Hd) as Hne.
  destruct (plain_sepfree y Hy) as [Hsf Hyne].
  assert (rev (chars (d ++ String Separator y))
          = (rev (chars y) ++ Separator :: rev (chars d))%list) as Hrev.
  { rewrite chars_app. change (chars (String Separator y)) with (Separator :: chars y).
    rewrite rev_app_distr. simpl rev. by rewrite <- app_assoc. }
  unfold parentOf. rewrite Hrev. clear Hrev.
  assert (forallb (fun c => negb (IsPathSeparator c)) (rev (chars y)) = true) as Hall
    by (by rewrite forallb_rev).
  destruct (rev (chars y)) as [|c r] eqn:Hr.
  { apply (f_equal (@length _)) in Hr. rewrite length_rev, length_chars in Hr.
    by destruct y. }
  simpl in Hall. apply andb_true_iff in Hall as [Hc Hall].
  change ((c :: r) ++ Separator :: rev (chars d))%list
    with (c :: (r ++ Separator :: rev (chars d)))%list.
  rewrite drop_while_head by (by apply negb_true_iff).
  simpl drop_while at 1. rewrite Hc.
  rewrite drop_while_all by done. simpl drop_while.
  destruct (rev (chars d)) as [|c' par] eqn:Hd'.
  { apply (f_equal (@length _)) in Hd'. rewrite length_rev, length_chars in Hd'.
    by destruct d. }
  rewrite <- Hd', rev_involutive. by rewrite of_chars_chars.
Qed.

(** ** Package [os]: what a call leaves in place *)

Lemma Stat_Ok_iff (fs : FS) (name : string) :
  (exists fi, Stat fs name = Ok fi) <-> is_Some (fs !! name).
Proof.
  unfold Stat. split.
  - intros [fi H]. destruct (fs !! name) as [[|]|]; eauto; discriminate.
  - intros [n H]. rewrite H. destruct n; eauto.
Qed.

Lemma Stat_Err_None (fs : FS) (name : string) (e : error) :
  Stat fs name = Err e -> fs !! name = None.
Proof.
  unfold Stat. destruct (fs !! name) as [[|]|]; congruence.
Qed.

Lemma Stat_IsDir (fs : FS) (name : string) (fi : FileInfo) :
  Stat fs name = Ok fi -> IsDir fi = true -> fs !! name = Some Dir.
Proof.
  unfold Stat. destruct (fs !! name) as [[|]|]; intros [= <-]; simpl; congruence.
Qed.

Lemma Mkdir_lookup (path : string) (fs fs' : FS) (err : option error) (k : string) :
  Mkdir path fs = (fs', err) ->
  fs' !! k = fs !! k \/ (k = path /\ fs !! k = None /\ fs' !! k = Some Dir /\ err = None).
Proof.
  unfold Mkdir. intros H.
  destruct (fs !! path) eqn:Hp; [injection H as <- <-; auto|].
  destruct (check_parent "mkdir" fs path); injection H as <- <-; auto.
  destruct (decide (k = path)) as [->|Hne].
  - right. rewrite lookup_insert_eq. auto.
  - left. by rewrite lookup_insert_ne.
Qed.

Lemma Mkdir_Ok (path : string) (fs fs' : FS) :
  Mkdir path fs = (fs', None) -> fs' !! path = Some Dir.
Proof.
  unfold Mkdir. destruct (fs !! path); [discriminate|].
  destruct (check_parent "mkdir" fs path); [discriminate|].
  intros [= <-]. apply lookup_insert_eq.
Qed.

Lemma Mkdir_not_IsExist (path : string) (fs fs' : FS) (e : error) :
  Mkdir path fs = (fs', Some e) -> IsExist e = true -> is_Some (fs !! path) /\ fs' = fs.
Proof.
  unfold Mkdir, check_parent. destruct (fs !! path) eqn:Hp.
  - intros [= <- <-]. eauto.
  - destruct (parentOf path); [|discriminate].
    destruct (fs !! s) as [[|]|]; intros [= <- <-]; discriminate.
Qed.

(* MkdirAll adds directories and changes nothing that exists. *)
Lemma MkdirAll_rec_lookup (fuel : nat) (path : string) (fs fs' : FS)
    (err : option error) (k : string) :
  MkdirAll_rec fuel path fs = (fs', err) ->
  fs' !! k = fs !! k \/ (fs !! k = None /\ fs' !! k = Some Dir).
Proof.
  revert path fs' err. induction fuel as [|n IH]; intros path fs' err; simpl.
  - destruct (Stat fs path) as [dir|e0].
    { destruct (IsDir dir); intros [= <- <-]; auto. }
    destruct (Mkdir path fs) as [fs2 [e|]] eqn:Hm.
    + intros H. assert (fs' = fs2) as ->.
      { destruct (Stat fs2 path) as [d|]; [destruct (IsDir d)|]; by injection H. }
      destruct (Mkdir_lookup _ _ _ _ k Hm) as [?|(_ & ? & ? & _)]; auto.
    + intros [= <- <-].
      destruct (Mkdir_lookup _ _ _ _ k Hm) as [?|(_ & ? & ? & _)]; auto.
  - destruct (Stat fs path) as [dir|e0].
    { destruct (IsDir dir); intros [= <- <-]; auto. }
    destruct (match parentOf path with
              | Some par => MkdirAll_rec n par fs
              | None => (fs, None)
              end) as [fs1 err1] eqn:Hrec.
    assert (fs1 !! k = fs !! k \/ (fs !! k = None /\ fs1 !! k = Some Dir)) as Hfs1.
    { destruct (parentOf path); [eapply IH; eauto|]. injection Hrec as <- <-. auto. }
    destruct err1 as [e|]; [intros [= <- <-]; auto|].
    destruct (Mkdir path fs1) as [fs2 [e|]] eqn:Hm; intros H.
    + assert (fs' = fs2) as ->.
      { destruct (Stat fs2 path) as [d|]; [destruct (IsDir d)|]; by injection H. }
      destruct (Mkdir_lookup _ _ _ _ k Hm) as [Hk|(_ & Hk1 & Hk2 & _)].
      * rewrite Hk. auto.
      * destruct Hfs1 as [E|[? E]]; [rewrite <- E; auto|congruence].
    + injection H as <- <-.
      destruct (Mkdir_lookup _ _ _ _ k Hm) as [Hk|(_ & Hk1 & Hk2 & _)].
      * rewrite Hk. auto.
      * destruct Hfs1 as [E|[? E]]; [rewrite <- E; auto|congruence].
Qed.

Lemma MkdirAll_lookup (path : string) (fs fs' : FS) (err : option error) (k : string) :
  MkdirAll path fs = (fs', err) ->
  fs' !! k = fs !! k \/ (fs !! k = None /\ fs' !! k = Some Dir).
Proof. apply MkdirAll_rec_lookup. Qed.

Lemma MkdirAll_rec_Ok (fuel : nat) (path : string) (fs fs' : FS) :
  MkdirAll_rec fuel path fs = (fs', None) -> fs' !! path = Some Dir.
Proof.
  destruct fuel as [|n]; simpl.
  - destruct (Stat fs path) as [dir|e0] eqn:Hs.
    { destruct (IsDir dir) eqn:Hd; intros [= <-]. eauto using Stat_IsDir. }
    destruct (Mkdir path fs) as [fs2 [e|]] eqn:Hm.
    + destruct (Stat fs2 path) as [d|] eqn:Hs2; [destruct (IsDir d) eqn:Hd|];
        intros [= <-]. eauto using Stat_IsDir.
    + intros [= <-]. eauto using Mkdir_Ok.
  - destruct (Stat fs path) as [dir|e0] eqn:Hs.
    { destruct (IsDir dir) eqn:Hd; intros [= <-]. eauto using Stat_IsDir. }
    destruct (match parentOf path with
              | Some par => MkdirAll_rec n par fs
              | None => (fs, None)
              end) as [fs1 [e|]]; [discriminate|].
    destruct (Mkdir path fs1) as [fs2 [e|]] eqn:Hm.
    + destruct (Stat fs2 path) as [d|] eqn:Hs2; [destruct (IsDir d) eqn:Hd|];
        intros [= <-]. eauto using Stat_IsDir.
    + intros [= <-]. eauto using Mkdir_Ok.
Qed.

(* MkdirAll never reports EEXIST: a path that exists is a directory, which
   is success, or is not, which is ENOTDIR. *)
Lemma MkdirAll_rec_not_IsExist (fuel : nat) (path : string) (fs fs' : FS) (e : error) :
  MkdirAll_rec fuel path fs = (fs', Some e) -> IsExist e = false.
Proof.
  revert path fs' e. induction fuel as [|n IH]; intros path fs' e; simpl.
  - destruct (Stat fs path) as [dir|e0] eqn:Hs.
    { destruct (IsDir dir); intros [= <- <-]; reflexivity. }
    destruct (Mkdir path fs) as [fs2 [e1|]] eqn:Hm; [|discriminate].
    intros H. destruct (IsExist e) eqn:He; [|reflexivity]. exfalso.
    assert (e1 = e) as ->.
    { destruct (Stat fs2 path) as [d|]; [destruct (IsDir d)|]; congruence. }
    destruct (Mkdir_not_IsExist _ _ _ _ Hm He) as [[x Hx] _].
    apply Stat_Err_None in Hs. congruence.
  - destruct (Stat fs path) as [dir|e0] eqn:Hs.
    { destruct (IsDir dir); intros [= <- <-]; reflexivity. }
    destruct (match parentOf path with
              | Some par => MkdirAll_rec n par fs
              | None => (fs, None)
              end) as [fs1 [e1|]] eqn:Hrec.
    { intros [= <- <-]. destruct (parentOf path); [eauto|discriminate]. }
    destruct (Mkdir path fs1) as [fs2 [e1|]] eqn:Hm; [|discriminate].
    intros H. destruct (IsExist e) eqn:He; [|reflexivity]. exfalso.
    assert (e1 = e) as ->.
    { destruct (Stat fs2 path) as [d|] eqn:Hs2; [destruct (IsDir d) eqn:Hd|]; congruence. }
    destruct (Mkdir_not_IsExist _ _ _ _ Hm He) as [[x Hx] ->].
    apply Stat_Err_None in Hs.
    assert (fs1 !! path = fs !! path \/ (fs !! path = None /\ fs1 !! path = Some Dir)) as [E|[_ E]].
    { destruct (parentOf path); [eapply MkdirAll_rec_lookup; eauto|].
      injection Hrec as <-. auto. }
    + congruence.
    + unfold Stat in H. rewrite E in H. simpl in H. discriminate.
Qed.

(* MkdirAll makes the path and its ancestors: a longer name is not touched *)
Lemma MkdirAll_rec_longer (fuel : nat) (path : string) (fs fs' : FS)
    (err : option error) (k : string) :
  MkdirAll_rec fuel path fs = (fs', err) ->
  (String.length path < String.length k)%nat -> fs' !! k = fs !! k.
Proof.
  revert path fs' err. induction fuel as [|n IH]; intros path fs' err; simpl.
  - destruct (Stat fs path) as [dir|e0].
    { by destruct (IsDir dir); intros [= <- <-]. }
    destruct (Mkdir path fs) as [fs2 [e|]] eqn:Hm; intros H Hlen.
    + assert (fs' = fs2) as ->.
      { destruct (Stat fs2 path) as [d|]; [destruct (IsDir d)|]; by injection H. }
      destruct (Mkdir_lookup _ _ _ _ k Hm) as [?|(-> & _)]; [done|lia].
    + injection H as <- <-.
      destruct (Mkdir_lookup _ _ _ _ k Hm) as [?|(-> & _)]; [done|lia].
  - destruct (Stat fs path) as [dir|e0].
    { by destruct (IsDir dir); intros [= <- <-]. }
    destruct (match parentOf path with
              | Some par => MkdirAll_rec n par fs
              | None => (fs, None)
              end) as [fs1 err1] eqn:Hrec.
    intros H Hlen.
    assert (fs1 !! k = fs !! k) as Hfs1.
    { destruct (parentOf path) as [par|] eqn:Hp; [|by injection Hrec as <- <-].
      eapply IH; [exact Hrec|]. apply parentOf_shorter in Hp. lia. }
    destruct err1 as [e|]; [by injection H as <- <-|].
    destruct (Mkdir path fs1) as [fs2 [e|]] eqn:Hm.
    + assert (fs' = fs2) as ->.
      { destruct (Stat fs2 path) as [d|]; [destruct (IsDir d)|]; by injection H. }
      destruct (Mkdir_lookup _ _ _ _ k Hm) as [Hk|(-> & _)]; [congruence|lia].
    + injection H as <- <-.
      destruct (Mkdir_lookup _ _ _ _ k Hm) as [Hk|(-> & _)]; [congruence|lia].
Qed.

(* the fuel of MkdirAll is enough: more of it changes nothing *)
Lemma MkdirAll_rec_fuel (n m : nat) (path : string) (fs : FS) :
  (String.length path <= n)%nat -> (String.length path <= m)%nat ->
  MkdirAll_rec n path fs = MkdirAll_rec m path fs.
Proof.
  revert m path fs. induction n as [|n IH]; intros m path fs Hn Hm.
  - destruct path; [|simpl in Hn; lia]. by destruct m.
  - destruct m as [|m].
    { destruct path; [|simpl in Hm; lia]. done. }
    simpl. destruct (parentOf path) as [par|] eqn:Hp; [|done].
    apply parentOf_shorter in Hp. by rewrite (IH m par fs) by lia.
Qed.

Lemma Create_absent (name : string) (fs : FS) :
  fs !! name = None ->
  Create name fs = match check_parent "open" fs name with
                   | Some e => (fs, Err e)
                   | None => (<[name := Regular []]> fs, Ok name)
                   end.
Proof. unfold Create. intros ->. reflexivity. Qed.

Lemma io_Copy_created (name : string) (r : Reader) (fs : FS) :
  io_Copy name r (<[name := Regular []]> fs)
  = (<[name := Regular (rd_data r)]> fs, rd_err r).
Proof.
  unfold io_Copy, File_Write. rewrite lookup_insert_eq. simpl.
  by rewrite insert_insert_eq.
Qed.

(** ** [writeLayer], case by case *)

Lemma writeLayer_inv (l l' : Layout) (lyr : v1.Layer) (fs fs' : FS) (err : option error) :
  writeLayer l lyr fs = (l', fs', err) ->
  (exists e, v1.Digest lyr = Err e /\ l' = l /\ fs' = fs /\ err = Some e)
  \/ (exists d, v1.Digest lyr = Ok d /\ writeLayer_outcome l lyr d fs l' fs' err).
Proof.
  unfold writeLayer. destruct (v1.Digest lyr) as [d|e].
  2:{ intros [= <- <- <-]. left. eauto. }
  intros H. right. exists d. split; [reflexivity|].
  destruct (Compressed l lyr) as [l1 [r|e]] eqn:Hc.
  2:{ injection H as <- <- <-. by eapply wl_no_bytes. }
  fold (blobDir l d) in H. fold (blobPath l d) in H.
  destruct (MkdirAll (blobDir l d) fs) as [fs1 [e|]] eqn:Hm.
  { rewrite (MkdirAll_rec_not_IsExist _ _ _ _ _ Hm) in H. simpl in H.
    injection H as <- <- <-. by eapply wl_no_dir. }
  destruct (Stat fs1 (blobPath l d)) as [fi|e] eqn:Hs.
  { injection H as <- <- <-. eapply wl_present; eauto.
    apply Stat_Ok_iff. eauto. }
  apply Stat_Err_None in Hs. rewrite (Create_absent _ _ Hs) in H.
  destruct (check_parent "open" fs1 (blobPath l d)) as [e1|] eqn:Hp.
  { injection H as <- <- <-. by eapply wl_no_file. }
  rewrite io_Copy_created in H. injection H as <- <- <-. by eapply wl_written.
Qed.

Lemma with_cache_id (l : Layout) (c : layer.Cache) :
  cache l = Some c -> with_cache l (Some c) = l.
Proof. destruct l. simpl. by intros ->. Qed.

(* a layer that is not the cache's wrapper leaves the store as it is *)
Lemma Compressed_layerOf (l : Layout) (d : result v1.Hash) (r : result Reader) :
  Compressed l (v1.layerOf d r) = (l, r).
Proof.
  unfold Compressed. destruct (cache l) eqn:Hc; simpl; [|done].
  by rewrite with_cache_id.
Qed.

Lemma Compressed_Root (l l' : Layout) (lyr : v1.Layer) (r : result Reader) :
  Compressed l lyr = (l', r) -> Root l' = Root l /\ OCI l' = OCI l.
Proof.
  unfold Compressed. destruct (cache l).
  - destruct (layer.Compressed lyr g). by intros [= <- _].
  - destruct (layer.Compressed lyr ∅). by intros [= <- _].
Qed.

(* writeBlobData fails only when the blob directory cannot be made; it
   writes the payload at the path of its SHA-256 digest unless something is
   there already. *)
Lemma writeBlobData_eq (l : Layout) (data : list byte) (fs : FS) :
  let d := v1.SHA256 data in
  let p := blobDir l d ++ String Separator (v1.Hex d) in
  writeBlobData l data fs
  = match MkdirAll (blobDir l d) fs with
    | (fs1, Some e) => (l, fs1, Some e)
    | (fs1, None) =>
        (l, match fs1 !! p with
            | Some _ => fs1
            | None => <[p := Regular data]> fs1
            end, None)
    end.
Proof.
  intros d p. destruct (SHA256_plain data) as [Ha Hh].
  assert (blobPath l d = p) as Hp by (by apply blobPath_eq).
  unfold writeBlobData, static.NewLayer, writeLayer. simpl v1.Digest. cbv iota beta.
  rewrite Compressed_layerOf. fold d. fold (blobDir l d). fold (blobPath l d). rewrite Hp.
  destruct (MkdirAll (blobDir l d) fs) as [fs1 [e|]] eqn:Hm.
  { by rewrite (MkdirAll_rec_not_IsExist _ _ _ _ _ Hm). }
  cbv iota beta. unfold Stat at 1.
  destruct (fs1 !! p) as [[|]|] eqn:Hl; [done..|].
  rewrite (Create_absent _ _ Hl).
  assert (check_parent "open" fs1 p = None) as ->.
  { unfold check_parent, p.
    rewrite (parentOf_child _ (v1.Algorithm d)); [|by apply (Join_last [Root l; "blobs"])|done].
    by rewrite (MkdirAll_rec_Ok _ _ _ _ Hm). }
  by rewrite io_Copy_created.
Qed.

Lemma writeLayer_Root (l l' : Layout) (lyr : v1.Layer) (fs fs' : FS) (err : option error) :
  writeLayer l lyr fs = (l', fs', err) -> Root l' = Root l /\ OCI l' = OCI l.
Proof.
  intros [(e & _ & -> & _)|(d & _ & H)]%writeLayer_inv; [done|].
  destruct H; eauto using Compressed_Root.
Qed.

(* writeLayer removes nothing *)
Lemma writeLayer_keeps (l l' : Layout) (lyr : v1.Layer) (fs fs' : FS)
    (err : option error) (k : string) :
  writeLayer l lyr fs = (l', fs', err) -> is_Some (fs !! k) -> is_Some (fs' !! k).
Proof.
  intros [(e & _ & _ & -> & _)|(d & _ & H)]%writeLayer_inv Hk; [done|].
  assert (forall fs1 merr, MkdirAll (blobDir l d) fs = (fs1, merr) -> is_Some (fs1 !! k)) as Hm.
  { intros fs1 merr Hm. destruct (MkdirAll_lookup _ _ _ _ k Hm) as [->|[E _]]; [done|].
    rewrite E in Hk. by destruct Hk. }
  destruct H; eauto.
  destruct (decide (blobPath l d = k)) as [->|Hne].
  - rewrite lookup_insert_eq. eauto.
  - rewrite lookup_insert_ne by done. eauto.
Qed.

(* after a write that succeeded something is at the blob path *)
Lemma writeLayer_Ok_present (l l' : Layout) (lyr : v1.Layer) (d : v1.Hash) (fs fs' : FS) :
  writeLayer l lyr fs = (l', fs', None) -> v1.Digest lyr = Ok d ->
  is_Some (fs' !! blobPath l d).
Proof.
  intros [(e & _ & _ & _ & ?)|(d' & Hd' & H)]%writeLayer_inv Hd; [done|].
  assert (d' = d) as -> by congruence.
  inversion H; subst; [done|]. rewrite lookup_insert_eq. eauto.
Qed.

(** ** The blob writer *)

(* a triple is given by its components *)
Lemma triple_eta {A B C : Type} (x : A * B * C) (a : A) (c : C) :
  x.1.1 = a -> x.2 = c -> x = (a, x.1.2, c).
Proof. destruct x as [[? ?] ?]. simpl. by intros -> ->. Qed.






(** ** [AddOCI] *)

Lemma blobPath_Root (l l' : Layout) (d : v1.Hash) :
  Root l' = Root l -> blobPath l' d = blobPath l d.
Proof. unfold blobPath, blobDir. by intros ->. Qed.

Lemma errgroup_Go_Root (l l' : Layout) (tasks : list v1.Layer) (fs fs' : FS)
    (errs : list (option error)) :
  errgroup_Go l tasks fs = (l', fs', errs) -> Root l' = Root l /\ OCI l' = OCI l.
Proof.
  revert l fs l' fs' errs. induction tasks as [|lyr rest IH]; intros l fs l' fs' errs; simpl.
  - by intros [= <- _ _].
  - destruct (writeLayer l lyr fs) as [[l1 fs1] err] eqn:Hw.
    destruct (errgroup_Go l1 rest fs1) as [[l2 fs2] errs'] eqn:Hg.
    intros [= <- _ _]. destruct (IH _ _ _ _ _ Hg) as [-> ->].
    by apply writeLayer_Root in Hw.
Qed.

Lemma errgroup_Go_keeps (l l' : Layout) (tasks : list v1.Layer) (fs fs' : FS)
    (errs : list (option error)) (k : string) :
  errgroup_Go l tasks fs = (l', fs', errs) -> is_Some (fs !! k) -> is_Some (fs' !! k).
Proof.
  revert l fs l' fs' errs. induction tasks as [|lyr rest IH]; intros l fs l' fs' errs; simpl.
  - by intros [= _ <- _].
  - destruct (writeLayer l lyr fs) as [[l1 fs1] err] eqn:Hw.
    destruct (errgroup_Go l1 rest fs1) as [[l2 fs2] errs'] eqn:Hg.
    intros [= _ <- _] Hk. eapply IH; [exact Hg|]. eapply writeLayer_keeps; eauto.
Qed.

(* every function of the group runs, and the blob of each layer write
   that succeeded is there when the group is done *)
Lemma errgroup_Go_present (l l' : Layout) (tasks : list v1.Layer) (fs fs' : FS)
    (errs : list (option error)) :
  errgroup_Go l tasks fs = (l', fs', errs) ->
  length errs = length tasks
  /\ forall (i : nat) lyr d, tasks !! i = Some lyr -> errs !! i = Some None ->
       v1.Digest lyr = Ok d -> is_Some (fs' !! blobPath l d).
Proof.
  revert l fs l' fs' errs. induction tasks as [|lyr rest IH]; intros l fs l' fs' errs; simpl.
  - intros [= _ _ <-]. split; [done|]. by intros [|i] ?.
  - destruct (writeLayer l lyr fs) as [[l1 fs1] err] eqn:Hw.
    destruct (errgroup_Go l1 rest fs1) as [[l2 fs2] errs'] eqn:Hg.
    intros [= <- <- <-]. destruct (IH _ _ _ _ _ Hg) as [Hlen Hrest].
    split; [simpl; by rewrite Hlen|].
    intros [|i] lyr' d; simpl.
    + intros [= <-] [= ->] Hd.
      eapply errgroup_Go_keeps; [exact Hg|]. eapply writeLayer_Ok_present; eauto.
    + intros Hi He Hd. rewrite <- (blobPath_Root l l1); eauto.
      by apply writeLayer_Root in Hw as [? _].
Qed.

Lemma pick_seq_from {A : Type} (pre tasks : list A) :
  omap (fun i : nat => (pre ++ tasks)%list !! i) (seq (length pre) (length tasks)) = tasks.
Proof.
  revert pre. induction tasks as [|a tasks IH]; intros pre; [done|].
  simpl seq. cbn [omap list_omap].
  rewrite lookup_app_r, Nat.sub_diag by lia. simpl.
  f_equal. specialize (IH (pre ++ [a])%list).
  rewrite <- app_assoc, length_app in IH. simpl in IH.
  by rewrite Nat.add_1_r in IH.
Qed.

(* a group whose schedule is a permutation runs every function once *)
Lemma pick_Permutation {A : Type} (order : list nat) (tasks : list A) :
  order ≡ₚ seq 0 (length tasks) -> pick order tasks ≡ₚ tasks.
Proof.
  intros Hp. unfold pick. rewrite Hp. by rewrite <- (pick_seq_from [] tasks) at 2.
Qed.

Lemma errgroup_Wait_None (errs : list (option error)) :
  errgroup_Wait errs = None <-> Forall (fun e => e = None) errs.
Proof.
  induction errs as [|[e|] errs IH]; simpl.
  - split; [by constructor|done].
  - split; [done|]. by inversion 1.
  - rewrite IH. split; [by constructor|]. by inversion 1.
Qed.

(* Wait returns the error of one of the functions *)
Lemma errgroup_Wait_Some (errs : list (option error)) (e : error) :
  errgroup_Wait errs = Some e -> exists i : nat, errs !! i = Some (Some e).
Proof.
  induction errs as [|[e'|] errs IH]; simpl; [done| |].
  - intros [= ->]. by exists 0%nat.
  - intros [i Hi]%IH. by exists (S i).
Qed.

Section StoreFacts.
Variable encodeIndex : list content.IndexEntry -> list byte.

Lemma SaveIndex_keeps (o : content.OCI) (fs fs' : FS) (err : option error) (k : string) :
  content.SaveIndex encodeIndex o fs = (fs', err) -> is_Some (fs !! k) -> is_Some (fs' !! k).
Proof.
  unfold content.SaveIndex, Create, io_Copy, File_Write.
  set (p := Join [content.root o; "index.json"]).
  destruct (fs !! p) as [[b|]|] eqn:Hp.
  - rewrite lookup_insert_eq. intros [= <- _] Hk.
    destruct (decide (p = k)) as [->|Hne].
    + rewrite lookup_insert_eq. eauto.
    + by rewrite !lookup_insert_ne.
  - by intros [= <- _].
  - destruct (check_parent "open" fs p); [by intros [= <- _]|].
    rewrite lookup_insert_eq. intros [= <- _] Hk.
    destruct (decide (p = k)) as [->|Hne].
    + rewrite lookup_insert_eq. eauto.
    + by rewrite !lookup_insert_ne.
Qed.

Lemma AddIndex_inv (o o' : content.OCI) (idx : ocispec.Descriptor) (ref : string)
    (fs fs' : FS) (err : option error) :
  ocispec.Annotations idx !! ocispec.AnnotationRefName = Some ref ->
  content.AddIndex encodeIndex o idx fs = (o', fs', err) ->
  content.index o' = (content.index o
                      ++ [{| content.reference := ref; content.descriptor := idx |}])%list
  /\ content.root o' = content.root o
  /\ forall k, is_Some (fs !! k) -> is_Some (fs' !! k).
Proof.
  unfold content.AddIndex. intros ->.
  destruct (content.SaveIndex _ _ fs) as [fs1 e] eqn:Hs.
  intros [= <- <- <-]. repeat split; [done..|].
  intros k. eapply SaveIndex_keeps; eauto.
Qed.
End StoreFacts.

Section AddOCIFacts.
Variable Marshal : v1.Manifest -> result (list byte).
Variable encodeIndex : list content.IndexEntry -> list byte.
Variable schedule : nat -> list nat.

Lemma offered_Manifest (l : Layout) (oci : artifacts.OCI) :
  artifacts.Manifest (offered l oci) = artifacts.Manifest oci
  /\ artifacts.RawConfig (offered l oci) = artifacts.RawConfig oci.
Proof. unfold offered. by destruct (cache l). Qed.

Lemma writeBlobData_inv (l l' : Layout) (data : list byte) (fs fs' : FS) (err : option error) :
  writeBlobData l data fs = (l', fs', err) ->
  l' = l /\ (forall k, is_Some (fs !! k) -> is_Some (fs' !! k))
  /\ (err = None -> is_Some (fs' !! blobPath l (v1.SHA256 data))).
Proof.
  intros H. split; [|split].
  - rewrite writeBlobData_eq in H. cbv zeta in H.
    destruct (MkdirAll _ fs) as [fs1 [e|]]; by injection H.
  - intros k. by apply (writeLayer_keeps _ _ _ _ _ _ _ H).
  - intros ->. by apply (writeLayer_Ok_present _ _ _ _ _ _ H).
Qed.

(* The run of an AddOCI that succeeds. *)
Lemma AddOCI_Ok_inv (l l' : Layout) (fs fs' : FS) (oci : artifacts.OCI) (ref : string)
    (desc : ocispec.Descriptor) :
  AddOCI Marshal encodeIndex schedule l fs oci ref = (l', fs', (desc, None)) ->
  exists m mdata cdata layers fs1 fs2 l3 fs3 errs,
    artifacts.Manifest oci = Ok m /\ Marshal m = Ok mdata
    /\ writeBlobData l mdata fs = (l, fs1, None)
    /\ artifacts.RawConfig oci = Ok cdata
    /\ writeBlobData l cdata fs1 = (l, fs2, None)
    /\ artifacts.Layers (offered l oci) = Ok layers
    /\ errgroup_Go l (pick (schedule (length layers)) layers) fs2 = (l3, fs3, errs)
    /\ errgroup_Wait errs = None
    /\ desc = manifestDescriptor m mdata ref
    /\ exists o, content.AddIndex encodeIndex (OCI l3) desc fs3 = (o, fs', None)
                 /\ l' = with_OCI l3 o.
Proof.
  unfold AddOCI. fold (offered l oci).
  destruct (offered_Manifest l oci) as [-> ->].
  destruct (artifacts.Manifest oci) as [m|e]; [|done].
  destruct (Marshal m) as [mdata|e] eqn:HM; [|done].
  destruct (writeBlobData l mdata fs) as [[l1 fs1] [e|]] eqn:Hw1; [done|].
  destruct (writeBlobData_inv _ _ _ _ _ _ Hw1) as (-> & _).
  destruct (artifacts.RawConfig oci) as [cdata|e]; [|done].
  destruct (writeBlobData l cdata fs1) as [[l2 fs2] [e|]] eqn:Hw2; [done|].
  destruct (writeBlobData_inv _ _ _ _ _ _ Hw2) as (-> & _).
  destruct (artifacts.Layers (offered l oci)) as [layers|e]; [|done].
  destruct (errgroup_Go l _ fs2) as [[l3 fs3] errs] eqn:Hg.
  destruct (errgroup_Wait errs) as [e|] eqn:Hwait; [done|].
  fold (manifestDescriptor m mdata ref).
  destruct (content.AddIndex _ _ _ fs3) as [[o fs4] [e|]] eqn:Ha; [done|].
  intros [= <- <- <-].
  exists m, mdata, cdata, layers, fs1, fs2, l3, fs3, errs.
  do 9 (split; [done|]). by exists o.
Qed.


(* an AddOCI that succeeds appends its descriptor to the index *)
Lemma AddOCI_Ok_index (l l' : Layout) (fs fs' : FS) (oci : artifacts.OCI) (ref : string)
    (desc : ocispec.Descriptor) :
  AddOCI Marshal encodeIndex schedule l fs oci ref = (l', fs', (desc, None)) ->
  content.index (OCI l')
  = (content.index (OCI l)
     ++ [{| content.reference := ref; content.descriptor := desc |}])%list.
Proof.
  intros (m & mdata & cdata & layers & fs1 & fs2 & l3 & fs3 & errs
          & _ & _ & _ & _ & _ & _ & Hg & _ & -> & o & Ha & ->)%AddOCI_Ok_inv.
  apply (AddIndex_inv encodeIndex _ _ _ ref) in Ha as (Ha & _); [|apply lookup_singleton_eq].
  simpl. rewrite Ha. by apply errgroup_Go_Root in Hg as [_ ->].
Qed.

(** C3.  When [AddOCI] succeeds, the descriptor it returns has the media
    type of the artifact's manifest, the digest and the size of the
    serialized manifest bytes and the reference name as its annotation, and
    the index of the store that is returned ends with that descriptor under
    the reference. *)
Theorem AddOCI_descriptor (l l' : Layout) (fs fs' : FS) (oci : artifacts.OCI) (ref : string)
    (desc : ocispec.Descriptor) :
  AddOCI Marshal encodeIndex schedule l fs oci ref = (l', fs', (desc, None)) ->
  exists m mdata,
    artifacts.Manifest oci = Ok m /\ Marshal m = Ok mdata
    /\ desc = {| ocispec.MediaType := v1.MediaType m;
                 ocispec.Digest := "sha256:" ++ EncodeToString (SHA256.Sum256 mdata);
                 ocispec.Size := Z.of_nat (length mdata);
                 ocispec.URLs := [];
                 ocispec.Annotations := {[ ocispec.AnnotationRefName := ref ]};
                 ocispec.Platform := None |}
    /\ content.index (OCI l')
       = (content.index (OCI l)
          ++ [{| content.reference := ref; content.descriptor := desc |}])%list.
Proof.
  intros H. pose proof (AddOCI_Ok_index _ _ _ _ _ _ _ H) as Hidx.
  apply AddOCI_Ok_inv in H
    as (m & mdata & cdata & layers & fs1 & fs2 & l3 & fs3 & errs
        & Hm & HM & _ & _ & _ & _ & _ & _ & Hd & _).
  exists m, mdata. by rewrite Hd in *.
Qed.




End AddOCIFacts.

Lemma quad_eta {A B C D : Type} (x : A * B * (C * D)) (d : D) :
  x.2.2 = d -> x = (x.1.1, x.1.2, (x.2.1, d)).
Proof. destruct x as [[? ?] [? ?]]. simpl. by intros ->. Qed.

Lemma AddOCI_descriptor_witness :
  let r := sampleAddOCI store0 disk0
             (artifactOf [static.NewLayer (bytes_of_string "layer-a");
                          static.NewLayer (bytes_of_string "layer-b")]) "app:v1" in
  r.2.2 = None
  /\ ocispec.Digest r.2.1
     = "sha256:27a0539cf1ac5d679dcb5e64990326b2ea499fc3795de90d6d9326ada2cb27e3"
  /\ ocispec.Size r.2.1 = 42%Z
  /\ map content.reference (content.index (OCI r.1.1)) = ["app:v1"].
Proof.
  intros r.
  assert (r = (r.1.1, r.1.2, (r.2.1, None))) as H
    by (apply quad_eta; vm_compute; reflexivity).
  destruct (AddOCI_descriptor _ _ _ _ _ _ _ _ _ _ H) as (m & mdata & Hm & HM & Hd & Hi).
  injection Hm as <-. injection HM as <-.
  split; [by rewrite H|]. rewrite Hd, Hi. repeat split; vm_compute; reflexivity.
Defined.


(* the failed add, as it leaves the disk: the manifest, the config and the
   layer that could be written are there, the index is not touched *)
Example AddOCI_failure_leaves_blobs :
  let r := sampleAddOCI store0 disk0
             (artifactOf [static.NewLayer (bytes_of_string "layer-a");
                          unreadable "layer-b"]) "app:v1" in
  Error <$> r.2.2 = Some "write layers: read failed"
  /\ r.1.2 !! "/store/blobs/sha256/27a0539cf1ac5d679dcb5e64990326b2ea499fc3795de90d6d9326ada2cb27e3"
     = Some (Regular (bytes_of_string "application/vnd.oci.image.manifest.v1+json"))
  /\ r.1.2 !! "/store/blobs/sha256/44136fa355b3678a1146ad16f7e8649e94fb4fc21fe77e8310c060f61caaff8a"
     = Some (Regular (bytes_of_string "{}"))
  /\ r.1.2 !! "/store/blobs/sha256/589f0d58b9053a4ff7329b8fdb4f9dd120e29354c086ad0b3b10733f6cfd6de3"
     = Some (Regular (bytes_of_string "layer-a"))
  /\ r.1.2 !! "/store/blobs/sha256/55fea2a37a9fc5963f1beccd0d162b856e6bd05ca07cdd3726847846ab740f0d"
     = None
  /\ content.index (OCI r.1.1) = [].
Proof. repeat split; vm_compute; reflexivity. Qed.




(** ** [Flush] *)

Lemma RemoveAll_lookup (path : string) (fs : FS) :
  path <> "" -> endsWithDot path = false ->
  exists fs', RemoveAll path fs = (fs', None)
    /\ forall k, fs' !! k = if below path k then None else fs !! k.
Proof.
  intros Hne Hdot. unfold RemoveAll. rewrite Hdot.
  destruct (String.eqb_spec path "") as [|_]; [done|].
  eexists. split; [reflexivity|]. intros k'.
  destruct (below path k') eqn:Hb.
  - apply map_lookup_filter_None. right. intros x _. simpl. congruence.
  - destruct (fs !! k') as [x|] eqn:Hk.
    + apply map_lookup_filter_Some. by split.
    + apply map_lookup_filter_None. by left.
Qed.

Lemma endsWithDot_suffix (pre x : string) (c1 c2 : ascii) (r : list ascii) :
  rev (chars x) = c1 :: c2 :: r -> Ascii.eqb c1 "." = false ->
  endsWithDot (pre ++ x) = false.
Proof.
  intros Hx Hc. unfold endsWithDot. rewrite chars_app, rev_app_distr, Hx. simpl.
  by rewrite Hc.
Qed.

(* a target of Flush: the root joined with a name *)
Lemma Flush_target (root x : string) (c1 c2 : ascii) (r : list ascii) :
  plain x = true -> rev (chars x) = c1 :: c2 :: r -> Ascii.eqb c1 "." = false ->
  Join [root; x] <> "" /\ endsWithDot (Join [root; x]) = false.
Proof.
  intros Hx Hrev Hc. pose proof (Join_last [root] x Hx) as Hcp. simpl in Hcp.
  split; [by eapply cleanpath_nonempty|].
  destruct (cleanpath_suffix _ _ Hcp) as [pre ->]. by eapply endsWithDot_suffix.
Qed.


(* a store with content and a file of its owner next to it, flushed: the
   blobs and the index are gone, the root and the other file are there *)
Example Flush_scenario :
  let disk : FS := <[ "/store/notes.txt" := Regular (bytes_of_string "keep") ]> disk0 in
  let r := sampleAddOCI store0 disk
             (artifactOf [static.NewLayer (bytes_of_string "layer-a")]) "app:v1" in
  let flushed := Flush r.1.1 r.1.2 in
  r.2.2 = None /\ size r.1.2 = 8%nat
  /\ flushed.2 = None
  /\ map_to_list flushed.1
     = [("/store/notes.txt", Regular (bytes_of_string "keep")); ("/store", Dir)].
Proof. repeat split; vm_compute; reflexivity. Qed.

(** ** The file getter *)

Lemma take_while_all {A} (f : A -> bool) (l r : list A) :
  forallb f l = true -> (match r with [] => true | a :: _ => negb (f a) end) = true ->
  take_while f (l ++ r) = l.
Proof.
  intros Hl Hr. induction l as [|a l IH]; simpl in *.
  - destruct r as [|a r]; [done|]. simpl. apply negb_true_iff in Hr. by rewrite Hr.
  - apply andb_true_iff in Hl as [Ha Hl]. rewrite Ha. by rewrite IH.
Qed.

Lemma cleanpath_prefix (d x : string) :
  cleanpath d x -> exists pre, d = pre ++ x /\ (pre = "" \/ exists q, pre = q ++ "/").
Proof.
  intros (rooted & fw & Hg & ->).
  destruct fw as [|e fw].
  - destruct rooted; [exists "/"|exists ""]; split; auto. right. by exists "".
  - rewrite render_snoc by done. exists (render rooted (e :: fw) ++ "/").
    split; [by rewrite append_assoc|]. right. eauto.
Qed.

(* Base gives the last element of a cleaned path *)
Lemma Base_cleanpath (d x : string) : cleanpath d x -> Base d = x.
Proof.
  intros Hd. pose proof (cleanpath_nonempty _ _ Hd) as Hne.
  destruct (cleanpath_last _ _ Hd) as [Hsf Hx].
  destruct (cleanpath_prefix _ _ Hd) as (pre & -> & Hpre).
  unfold Base. destruct (String.eqb_spec (pre ++ x) "") as [|_]; [done|].
  rewrite chars_app, rev_app_distr.
  assert (forallb (fun c => negb (IsPathSeparator c)) (rev (chars x)) = true) as Hall
    by (by rewrite forallb_rev).
  destruct (rev (chars x)) as [|c r] eqn:Hr.
  { apply (f_equal (@length _)) in Hr. rewrite length_rev, length_chars in Hr. by destruct x. }
  pose proof Hall as Hall'. simpl in Hall'. apply andb_true_iff in Hall' as [Hc _].
  change ((c :: r) ++ rev (chars pre))%list with (c :: (r ++ rev (chars pre)))%list.
  rewrite drop_while_head by (by apply negb_true_iff).
  change (c :: (r ++ rev (chars pre)))%list with ((c :: r) ++ rev (chars pre))%list.
  rewrite take_while_all; [| done |].
  - rewrite <- Hr, rev_involutive. destruct (chars x) eqn:E.
    + by destruct x.
    + rewrite <- E. apply of_chars_chars.
  - destruct Hpre as [->|[q ->]]; [done|].
    rewrite chars_app, rev_app_distr. simpl. done.
Qed.

Lemma append_cons_assoc (a b d : string) (c : ascii) :
  a ++ String c (b ++ d) = (a ++ String c b) ++ d.
Proof.
  induction a as [|x a IH]; [done|].
  change (String x (a ++ String c (b ++ d)) = String x ((a ++ String c b) ++ d)).
  by rewrite IH.
Qed.

(** C10.  [Detect] answers true exactly when the path joined from the host
    and the path of the URL is not empty, [os.Stat] on it succeeds and it is
    not a directory; it answers false, without an error, for a path that
    does not exist and for a directory.  [Name] is the last element of the
    same joined path: for a URL path that ends in a plain element, that
    element. *)
Theorem Detect_iff (fs : FS) (u : url.URL) :
  (File.Detect fs u = true
   <-> Join [url.Host u; url.Path u] <> ""
       /\ exists fi, Stat fs (Join [url.Host u; url.Path u]) = Ok fi /\ IsDir fi = false)
  /\ (fs !! Join [url.Host u; url.Path u] = None -> File.Detect fs u = false)
  /\ (fs !! Join [url.Host u; url.Path u] = Some Dir -> File.Detect fs u = false)
  /\ File.Name u = Base (Join [url.Host u; url.Path u])
  /\ (forall dir x, plain x = true -> url.Path u = dir ++ "/" ++ x -> File.Name u = x).
Proof.
  unfold File.Detect, File.Name, File.path.
  set (p := Join [url.Host u; url.Path u]).
  split; [|split; [|split; [|split]]].
  - destruct (Nat.eqb_spec (String.length p) 0) as [H0|H0].
    + split; [done|]. intros [Hne _]. by destruct p.
    + destruct (Stat fs p) as [fi|e].
      * rewrite negb_true_iff. split.
        -- intros Hd. split; [by intros E; rewrite E in H0|]. eauto.
        -- intros (_ & fi' & [= <-] & Hd). done.
      * split; [done|]. by intros (_ & fi' & ? & _).
  - intros Hn. destruct (String.length p =? 0)%nat; [done|]. unfold Stat. by rewrite Hn.
  - intros Hn. destruct (String.length p =? 0)%nat; [done|]. unfold Stat. by rewrite Hn.
  - reflexivity.
  - intros dir x Hx Hp. apply Base_cleanpath. unfold p. rewrite Hp.
    destruct (plain_sepfree x Hx) as [Hsf Hxne].
    unfold Join. simpl drop_while.
    destruct (String.eqb_spec (url.Host u) "") as [Hh|Hh].
    + destruct (String.eqb_spec (dir ++ "/" ++ x) "") as [E|_]; [by destruct dir|].
      simpl join_sep. apply (Clean_last _ x (split_sep dir)); [by destruct dir| |done].
      change (dir ++ "/" ++ x) with (dir ++ String Separator x).
      by rewrite split_sep_app, (split_sep_sepfree x).
    + change (join_sep [url.Host u; dir ++ "/" ++ x])
        with (url.Host u ++ String Separator (dir ++ String Separator x)).
      rewrite append_cons_assoc.
      apply (Clean_last _ x (split_sep (url.Host u ++ String Separator dir))); [| |done].
      * by destruct (url.Host u).
      * by rewrite split_sep_app, (split_sep_sepfree x).
Qed.

(** ** [Identify] *)

Section ProbeFacts.
Variable Decode : Reader -> result string.

End ProbeFacts.

(** ** [CopyAll] *)

Section TransferFacts.
Variable Target : Type.
Variable oras_Copy :
  content.OCI -> FS -> string -> Target -> string -> Target * result ocispec.Descriptor.

Lemma walk_app {S : Type} (fn : string -> ocispec.Descriptor -> S -> S * option error)
    (pre rest : list content.IndexEntry) (s : S) :
  content.walk fn (pre ++ rest) s
  = match content.walk fn pre s with
    | (s1, None) => content.walk fn rest s1
    | r => r
    end.
Proof.
  revert s. induction pre as [|e pre IH]; intros s; simpl; [done|].
  destruct (fn _ _ s) as [s1 [err|]]; [done|]. apply IH.
Qed.

(* a walk of copies that succeeds collects one descriptor for each entry *)
Lemma walk_copyEntry_Ok (l : Layout) (fs : FS) (toMapper : option (string -> result string))
    (entries : list content.IndexEntry) (dst dst1 : Target)
    (acc descs : list ocispec.Descriptor) :
  content.walk (copyEntry Target oras_Copy l fs toMapper) entries (dst, acc)
    = ((dst1, descs), None) ->
  length descs = (length acc + length entries)%nat.
Proof.
  revert dst acc. induction entries as [|e entries IH]; intros dst acc; simpl.
  - intros [= _ <-]. lia.
  - destruct (match toMapper with Some f => f (content.reference e) | None => Ok "" end)
      as [toRef|err]; [|done].
    destruct (Copy Target oras_Copy l fs (content.reference e) dst toRef)
      as [dst2 [d [err|]]]; [done|].
    intros ->%IH. rewrite length_app. simpl. lia.
Qed.

(** C6.  [CopyAll] walks the index: a walk that succeeds returns one
    descriptor for each entry.  For each entry the reference is first passed
    through the mapper when there is one; when the mapper fails on an entry,
    the walk stops there: nothing is copied for that entry or after it, the
    target is as the copies of the entries before it left it, one copy was
    made for each of them, no descriptors are returned, and the error is the
    mapper's error, wrapped by the visitor and by [CopyAll]. *)
Theorem CopyAll_mapper_fails (l : Layout) (fs : FS) (dst dst1 : Target)
    (pre post : list content.IndexEntry) (entry : content.IndexEntry)
    (f : string -> result string) (descs : list ocispec.Descriptor) (err : error) :
  content.index (OCI l) = (pre ++ entry :: post)%list ->
  content.walk (copyEntry Target oras_Copy l fs (Some f)) pre (dst, [])
    = ((dst1, descs), None) ->
  f (content.reference entry) = Err err ->
  CopyAll Target oras_Copy l fs dst (Some f)
    = (dst1, ([], Some (wrapError "walk: " (wrapError "mapper: " err))))
  /\ length descs = length pre
  /\ Is (wrapError "walk: " (wrapError "mapper: " err)) err
  /\ (forall toMapper dst' descs',
        CopyAll Target oras_Copy l fs dst toMapper = (dst', (descs', None)) ->
        length descs' = length (content.index (OCI l))).
Proof.
  intros Hidx Hpre Hf. split; [|split; [|split]].
  - unfold CopyAll, content.Walk. rewrite Hidx, walk_app, Hpre. simpl. rewrite Hf. reflexivity.
  - by apply walk_copyEntry_Ok in Hpre.
  - right. right. by destruct err; left.
  - intros toMapper dst' descs'. unfold CopyAll, content.Walk.
    destruct (content.walk (copyEntry Target oras_Copy l fs toMapper)
                (content.index (OCI l)) (dst, [])) as [[dst2 descs2] [e|]] eqn:Hw; [done|].
    intros [= _ <-]. by apply walk_copyEntry_Ok in Hw.
Qed.
End TransferFacts.

(** ** The cache *)

Lemma with_cache_None (l : Layout) (c : option layer.Cache) :
  with_cache (with_cache l c) None = with_cache l None.
Proof. reflexivity. Qed.









Section CacheFacts.
Variable Marshal : v1.Manifest -> result (list byte).
Variable encodeIndex : list content.IndexEntry -> list byte.
Variable schedule : nat -> list nat.


End CacheFacts.

(** ** The remaining examples *)

Lemma Detect_iff_witness :
  let fs : FS := {[ "gettertests" := Dir; "gettertests/file.yaml" := Regular [] ]} in
  let file := {| url.Scheme := ""; url.Host := ""; url.Path := "gettertests/file.yaml" |} in
  let dir := {| url.Scheme := ""; url.Host := ""; url.Path := "gettertests" |} in
  File.Detect fs file = true /\ File.Name file = "file.yaml"
  /\ File.Detect fs dir = false /\ File.Name dir = "gettertests".
Proof.
  intros fs file dir.
  destruct (Detect_iff fs file) as (Hiff & _ & _ & _ & Hname).
  destruct (Detect_iff fs dir) as (_ & _ & Hdir & Hbase & _).
  split; [|split; [|split]].
  - apply Hiff. split; [discriminate|].
    exists {| fi_name := "file.yaml"; fi_isdir := false |}. by vm_compute.
  - by apply (Hname "gettertests" "file.yaml").
  - apply Hdir. by vm_compute.
  - rewrite Hbase. by vm_compute.
Defined.


Lemma CopyAll_mapper_fails_witness :
  CopyAll (list (string * string)) sampleCopy store3 disk0 [] (Some sampleMapper)
  = ([("a", "registry/a")],
     ([], Some (wrapError "walk: " (wrapError "mapper: " (errorString "no mapping"))))).
Proof.
  exact (proj1 (CopyAll_mapper_fails (list (string * string)) sampleCopy store3 disk0
                  [] [("a", "registry/a")] [entryOf "a"] [entryOf "c"] (entryOf "b")
                  sampleMapper [content.descriptor (entryOf "a")]
                  (errorString "no mapping") eq_refl eq_refl eq_refl)).
Defined.



(** * Further properties *)

(** ** More on cleaned paths *)

(* the output of Clean's loop on the elements of any path *)
Lemma norm_split_good (s : string) :
  good_stack (is_rooted s) (rev (norm (is_rooted s) (split_sep s))).
Proof.
  unfold norm. rewrite rev_involutive.
  apply fold_clean_good; [apply good_stack_nil|apply split_sep_Forall].
Qed.

(* Clean gives the root, the dot, or a cleaned path with a last element *)
Lemma Clean_cases (s : string) :
  Clean s = "/" \/ Clean s = "." \/ exists x, cleanpath (Clean s) x.
Proof.
  unfold Clean. destruct (String.eqb_spec s "") as [|Hne]; [by right; left|].
  pose proof (norm_split_good s) as Hg.
  destruct (norm (is_rooted s) (split_sep s)) as [|e fw] eqn:Hn using rev_ind.
  - destruct (is_rooted s); [by left|by right; left].
  - clear IHfw. right. right. exists e, (is_rooted s), fw. done.
Qed.

Lemma Clean_nonempty (s : string) : Clean s <> "".
Proof.
  destruct (Clean_cases s) as [->| [->| [x Hx]]]; [done..|].
  by eapply cleanpath_nonempty.
Qed.

Lemma is_rooted_Clean (s : string) : s <> "" -> is_rooted (Clean s) = is_rooted s.
Proof.
  intros Hne. unfold Clean. destruct (String.eqb_spec s "") as [|_]; [done|].
  pose proof (norm_split_good s) as Hg.
  destruct (norm (is_rooted s) (split_sep s)) as [|e fw] eqn:Hn.
  - by destruct (is_rooted s).
  - by apply render_props.
Qed.

(* Join is empty only when every element is *)
Lemma Join_empty (elems : list string) :
  Join elems = "" <-> Forall (fun e => e = "") elems.
Proof.
  unfold Join. induction elems as [|e elems IH]; simpl.
  - split; [constructor|done].
  - destruct (String.eqb_spec e "") as [->|Hne].
    + rewrite IH. split; [by constructor|by inversion 1].
    + split; [by intros ?%Clean_nonempty|]. by inversion 1.
Qed.

(* cleaning a path that goes on with a plain element *)
Lemma Clean_snoc (t x : string) :
  t <> "" -> plain x = true ->
  Clean (t ++ String Separator x)
  = render (is_rooted t) (norm (is_rooted t) (split_sep t) ++ [x]).
Proof.
  intros Ht Hx. unfold Clean.
  destruct (String.eqb_spec (t ++ String Separator x) "") as [E|_]; [by destruct t|].
  rewrite is_rooted_app by done.
  rewrite split_sep_app, (split_sep_sepfree x) by (by apply plain_sepfree).
  unfold norm. rewrite fold_left_app. simpl. by rewrite plain_step.
Qed.

(* what Join gives for a directory and a plain name, by what Clean makes of
   the directory *)
Lemma Join_dir_name (r x : string) :
  plain x = true ->
  Join [r; x]
  = if String.eqb r "" then x
    else render (is_rooted r) (norm (is_rooted r) (split_sep r) ++ [x]).
Proof.
  intros Hx. destruct (plain_sepfree x Hx) as [Hsf Hxne].
  unfold Join. simpl drop_while.
  destruct (String.eqb_spec r "") as [->|Hr].
  - destruct (String.eqb_spec x "") as [|_]; [done|]. simpl join_sep.
    unfold Clean. destruct (String.eqb_spec x "") as [|_]; [done|].
    rewrite is_rooted_sepfree, split_sep_sepfree by done.
    unfold norm. simpl. by rewrite plain_step.
  - change (join_sep [r; x]) with (r ++ String Separator x). by apply Clean_snoc.
Qed.

Lemma Join_dropped (elems : list string) :
  drop_while (fun e => String.eqb e "") elems <> [] ->
  Join elems = Clean (join_sep (drop_while (fun e => String.eqb e "") elems)).
Proof. unfold Join. by destruct (drop_while _ elems). Qed.

(* one more plain element at the end of a Join *)
Lemma Join_snoc (elems : list string) (x y : string) :
  plain x = true -> plain y = true ->
  Join (elems ++ [x; y]) = Join (elems ++ [x]) ++ String Separator y.
Proof.
  intros Hx Hy. destruct (plain_sepfree x Hx) as [Hsf Hxne].
  destruct (plain_sepfree y Hy) as [Hsfy Hyne].
  change (elems ++ [x; y])%list with (elems ++ ([x] ++ [y]))%list.
  rewrite app_assoc.
  set (rest := drop_while (fun e => String.eqb e "") elems).
  assert (drop_while (fun e => String.eqb e "") (elems ++ [x]) = rest ++ [x])%list as D1
    by (by apply drop_while_snoc, String.eqb_neq).
  assert (drop_while (fun e => String.eqb e "") ((elems ++ [x]) ++ [y])
          = (rest ++ [x]) ++ [y])%list as D2
    by (by rewrite drop_while_snoc, D1 by (by apply String.eqb_neq)).
  rewrite !Join_dropped, D1, D2 by (rewrite ?D1, ?D2; by destruct rest).
  rewrite (join_sep_snoc (rest ++ [x]) y) by (by destruct rest).
  set (t := join_sep (rest ++ [x])).
  assert (t <> "" /\ exists X, split_sep t = (X ++ [x])%list) as [Ht [X HX]].
  { unfold t. destruct rest as [|e rest'].
    - simpl. split; [done|]. exists []. by apply split_sep_sepfree.
    - change ((e :: rest') ++ [x])%list with (e :: (rest' ++ [x]))%list.
      change (e :: (rest' ++ [x]))%list with ((e :: rest') ++ [x])%list.
      rewrite join_sep_snoc by done. split; [by destruct (join_sep (e :: rest'))|].
      exists (split_sep (join_sep (e :: rest'))).
      by rewrite split_sep_app, (split_sep_sepfree x). }
  rewrite Clean_snoc by done.
  unfold Clean. destruct (String.eqb_spec t "") as [|_]; [done|].
  unfold norm. rewrite HX, fold_left_app. simpl. rewrite plain_step by done. simpl.
  rewrite (render_snoc _ (_ ++ [x]) y); [done|]. by destruct (rev _).
Qed.

Lemma prefix_app (a b : string) : String.prefix a (a ++ b) = true.
Proof.
  induction a as [|c a IH]; [by destruct b|].
  change (String c a ++ b) with (String c (a ++ b)). simpl.
  by destruct (ascii_dec c c).
Qed.

Lemma prefix_length (a b : string) :
  String.prefix a b = true -> (String.length a <= String.length b)%nat.
Proof.
  revert b. induction a as [|c a IH]; intros b; [simpl; lia|].
  destruct b as [|c' b]; [done|]. simpl. destruct (ascii_dec c c'); [|done].
  intros ?%IH. lia.
Qed.

Lemma below_length (p k : string) :
  below p k = true -> (String.length p <= String.length k)%nat.
Proof.
  unfold below. intros [->%String.eqb_eq | H%prefix_length]%orb_true_iff; [lia|].
  rewrite length_append in H. lia.
Qed.

Lemma append_inj_r (a b c : string) : a ++ b = a ++ c -> b = c.
Proof.
  induction a as [|x a IH]; [done|].
  change (String x (a ++ b) = String x (a ++ c) -> b = c). intros [= H]. auto.
Qed.

(** ** The file getter, beyond [Detect] *)

Lemma Join_cases (elems : list string) :
  Join elems = "" \/ Join elems = "/" \/ Join elems = "."
  \/ exists x, cleanpath (Join elems) x.
Proof.
  unfold Join. destruct (drop_while _ elems) as [|e rest]; [by left|].
  right. apply Clean_cases.
Qed.

(** X1.  The path of a URL is empty exactly when its host and its path both
    are; [Detect] then answers false and [Open] fails with "no such file",
    whatever the file system holds. *)
Theorem path_empty (u : url.URL) :
  (File.path u = "" <-> url.Host u = "" /\ url.Path u = "")
  /\ (File.path u = "" ->
      forall fs, File.Detect fs u = false
                 /\ File.Open fs u = Err (PathError "open" "" ENOENT)).
Proof.
  split.
  - unfold File.path. rewrite Join_empty. split.
    + intros H. inversion H as [|? ? H1 H2]; subst. inversion H2; subst. done.
    + intros [-> ->]. by repeat constructor.
  - intros Hp fs. unfold File.Detect, File.Open, Open. by rewrite Hp.
Qed.

(** X2.  [Name] is the last element of the joined path: the path is the
    name, or ends with a separator and the name, which has no separator in
    it and is not empty.  The two exceptions are the empty path, named ".",
    and the root, named "/". *)
Theorem Name_last_element (u : url.URL) :
  (File.path u = "" /\ File.Name u = ".")
  \/ (File.path u = "/" /\ File.Name u = "/")
  \/ (sepfree (File.Name u) = true /\ File.Name u <> ""
      /\ exists pre, File.path u = pre ++ File.Name u
                     /\ (pre = "" \/ exists q, pre = q ++ "/")).
Proof.
  unfold File.Name. unfold File.path at 1 2 3 4 5 6.
  destruct (Join_cases [url.Host u; url.Path u]) as [E|[E|[E|[x Hx]]]].
  - left. unfold File.path. by rewrite E.
  - right. left. unfold File.path. by rewrite E.
  - right. right. unfold File.path. rewrite E. repeat split; [done|].
    exists "". split; [done|by left].
  - right. right. unfold File.path. rewrite (Base_cleanpath _ _ Hx).
    destruct (cleanpath_last _ _ Hx) as [Hsf Hne].
    repeat split; [done..|]. by apply cleanpath_prefix.
Qed.

(** X3.  The joined path is absolute exactly when the host followed by the
    path of the URL starts with a separator: a URL with a host names a path
    relative to the working directory. *)
Theorem path_rooted (u : url.URL) :
  is_rooted (File.path u) = is_rooted (url.Host u ++ url.Path u).
Proof.
  unfold File.path, Join. simpl drop_while.
  destruct (String.eqb_spec (url.Host u) "") as [->|Hh].
  - change ("" ++ url.Path u) with (url.Path u).
    destruct (String.eqb_spec (url.Path u) "") as [->|Hp]; [done|].
    simpl join_sep. by apply is_rooted_Clean.
  - change (join_sep [url.Host u; url.Path u])
      with (url.Host u ++ String Separator (url.Path u)).
    rewrite is_rooted_Clean by (by destruct (url.Host u)).
    by rewrite !is_rooted_app.
Qed.

(** X4.  [Open] yields a stream that can be read exactly when [Detect]
    answers true, and the stream then holds the bytes of the file at the
    joined path. *)
Theorem Detect_Open (fs : FS) (u : url.URL) :
  (File.Detect fs u = true <-> exists b, File.Open fs u = Ok (NewReader b))
  /\ (forall b, File.Open fs u = Ok (NewReader b) ->
        fs !! File.path u = Some (Regular b)).
Proof.
  unfold File.Detect, File.Open, Open, Stat.
  destruct (String.eqb_spec (File.path u) "") as [->|Hne].
  { simpl. split; [|done]. split; [done|]. by intros [b ?]. }
  assert ((String.length (File.path u) =? 0)%nat = false) as ->.
  { apply Nat.eqb_neq. by destruct (File.path u). }
  destruct (fs !! File.path u) as [[b|]|].
  - split; [|by intros b' [= ->]]. split; [by exists b|done].
  - split; [|done]. split; [done|]. by intros [b ?].
  - split; [|done]. split; [done|]. by intros [b ?].
Qed.

Lemma MkdirAll_Ok (path : string) (fs fs' : FS) :
  MkdirAll path fs = (fs', None) -> fs' !! path = Some Dir.
Proof. apply MkdirAll_rec_Ok. Qed.

Lemma WriteFile_Ok (name : string) (data : list byte) (fs fs' : FS) :
  WriteFile name data fs = (fs', None) ->
  fs' = <[name := Regular data]> fs.
Proof.
  unfold WriteFile, Create, File_Write.
  destruct (fs !! name) as [[b|]|] eqn:Hn.
  - intros [= <-]. rewrite lookup_insert_eq. by rewrite insert_insert_eq.
  - done.
  - destruct (check_parent "open" fs name); [done|].
    intros [= <-]. rewrite lookup_insert_eq. by rewrite insert_insert_eq.
Qed.

(** X5.  On every file system on which the fixture of the tests can be set
    up, the file getter meets what the tests expect of it: the file is
    detected and the directory is not, each is named by its last element,
    the file opens empty; after the teardown neither is detected. *)
Theorem getter_fixture (fs fs' : FS) :
  getter_test.setup fs = (fs', None) ->
  let file := url.ofPath getter_test.fileWithExt in
  let dir := url.ofPath getter_test.rootDir in
  File.Detect fs' file = true /\ File.Detect fs' dir = false
  /\ File.Name file = "file.yaml" /\ File.Name dir = getter_test.rootDir
  /\ File.Open fs' file = Ok (NewReader [])
  /\ File.Detect (getter_test.teardown fs') file = false
  /\ File.Detect (getter_test.teardown fs') dir = false.
Proof.
  intros Hs file dir.
  assert (File.path file = "gettertests/file.yaml") as Hpf by (vm_compute; reflexivity).
  assert (File.path dir = "gettertests") as Hpd by (vm_compute; reflexivity).
  unfold getter_test.setup in Hs.
  destruct (MkdirAll getter_test.rootDir fs) as [fs1 [e|]] eqn:Hm; [done|].
  apply MkdirAll_Ok in Hm. apply WriteFile_Ok in Hs.
  change getter_test.fileWithExt with "gettertests/file.yaml" in Hs.
  change getter_test.rootDir with "gettertests" in Hm.
  assert (fs' !! "gettertests/file.yaml" = Some (Regular [])) as Hf
    by (subst fs'; apply lookup_insert_eq).
  assert (fs' !! "gettertests" = Some Dir) as Hd
    by (subst fs'; by rewrite lookup_insert_ne).
  destruct (RemoveAll_lookup "gettertests" fs') as (fs2 & Hr & Hl); [done..|].
  assert (getter_test.teardown fs' = fs2) as Ht.
  { unfold getter_test.teardown. change getter_test.rootDir with "gettertests".
    by rewrite Hr. }
  unfold File.Detect, File.Open, File.Name, Open, Stat. rewrite Ht, Hpf, Hpd, Hf, Hd, !Hl.
  repeat split; vm_compute; reflexivity.
Qed.

Lemma getter_fixture_witness :
  let fs' := (getter_test.setup ∅).1 in
  getter_test.setup ∅ = (fs', None)
  /\ File.Detect fs' (url.ofPath "gettertests/file.yaml") = true
  /\ File.Detect fs' (url.ofPath "gettertests") = false.
Proof.
  intros fs'.
  assert (getter_test.setup ∅ = (fs', None)) as H by (vm_compute; reflexivity).
  split; [exact H|]. pose proof (getter_fixture ∅ fs' H) as (H1 & H2 & _).
  split; [exact H1|exact H2].
Defined.

(** ** The blob writer, beyond one write *)

Lemma MkdirAll_rec_dir (fuel : nat) (path : string) (fs : FS) :
  fs !! path = Some Dir -> MkdirAll_rec fuel path fs = (fs, None).
Proof. intros H. destruct fuel; simpl; unfold Stat; by rewrite H. Qed.

Lemma MkdirAll_dir (path : string) (fs : FS) :
  fs !! path = Some Dir -> MkdirAll path fs = (fs, None).
Proof. apply MkdirAll_rec_dir. Qed.

(* one level is made when the parent is there or is not asked for *)
Lemma MkdirAll_rec_one (fuel : nat) (path : string) (fs : FS) :
  fs !! path = None ->
  match parentOf path with Some par => fs !! par = Some Dir | None => True end ->
  MkdirAll_rec fuel path fs = (<[path := Dir]> fs, None).
Proof.
  intros Hn Hp.
  assert (Mkdir path fs = (<[path := Dir]> fs, None)) as Hm.
  { unfold Mkdir, check_parent. rewrite Hn. destruct (parentOf path); [by rewrite Hp|done]. }
  destruct fuel; simpl; unfold Stat; rewrite Hn.
  - by rewrite Hm.
  - destruct (parentOf path) as [par|]; [|by rewrite Hm].
    rewrite MkdirAll_rec_dir by done. by rewrite Hm.
Qed.

(* an existing path names after writeLayer what it named before *)
Lemma MkdirAll_preserves (path : string) (fs fs' : FS) (err : option error)
    (k : string) (n : node) :
  MkdirAll path fs = (fs', err) -> fs !! k = Some n -> fs' !! k = Some n.
Proof.
  intros Hm Hk. destruct (MkdirAll_lookup _ _ _ _ k Hm) as [->|[E _]]; [done|].
  by rewrite E in Hk.
Qed.

Lemma writeLayer_preserves (l l' : Layout) (lyr : v1.Layer) (fs fs' : FS)
    (err : option error) (k : string) (n : node) :
  writeLayer l lyr fs = (l', fs', err) -> fs !! k = Some n -> fs' !! k = Some n.
Proof.
  intros [(e & _ & _ & -> & _)|(d & _ & H)]%writeLayer_inv Hk; [done|].
  destruct H as [| | |l1 r fs1 e _ Hm _ _|l1 r fs1 _ Hm Hn _]; eauto using MkdirAll_preserves.
  destruct (decide (blobPath l d = k)) as [E0|Hne].
  - pose proof (MkdirAll_preserves _ _ _ _ _ _ Hm Hk) as E. rewrite E0 in Hn. congruence.
  - rewrite lookup_insert_ne by done. eauto using MkdirAll_preserves.
Qed.

(** X6.  [writeLayer] overwrites nothing: whatever it returns, every path
    that named a file or a directory before names the same file, with the
    same bytes, or directory afterwards. *)
Theorem writeLayer_never_overwrites (l l' : Layout) (lyr : v1.Layer) (fs fs' : FS)
    (err : option error) :
  writeLayer l lyr fs = (l', fs', err) ->
  forall k n, fs !! k = Some n -> fs' !! k = Some n.
Proof.
  intros [(e & _ & _ & -> & _)|(d & _ & H)]%writeLayer_inv k n Hk; [done|].
  destruct H as [| | |l1 r fs1 e _ Hm _ _|l1 r fs1 _ Hm Hn _]; eauto using MkdirAll_preserves.
  pose proof (MkdirAll_preserves _ _ _ _ _ _ Hm Hk) as E.
  rewrite lookup_insert_ne; [done|]. intros E0. rewrite E0 in Hn. congruence.
Qed.

(* the blob directory and the blob path of a layer with a plain digest *)
Lemma blobDir_eq (l : Layout) (d : v1.Hash) :
  plain (v1.Algorithm d) = true ->
  blobDir l d = Join [Root l; "blobs"] ++ String Separator (v1.Algorithm d)
  /\ cleanpath (blobDir l d) (v1.Algorithm d).
Proof.
  intros Ha. split.
  - apply (Join_snoc [Root l] "blobs" (v1.Algorithm d)); done.
  - apply (Join_last [Root l; "blobs"]); done.
Qed.

Lemma blobPath_parent (l : Layout) (d : v1.Hash) :
  plain (v1.Algorithm d) = true -> plain (v1.Hex d) = true ->
  parentOf (blobPath l d) = Some (blobDir l d) /\ blobPath l d <> blobDir l d.
Proof.
  intros Ha Hh. rewrite blobPath_eq by done. split.
  - apply (parentOf_child _ (v1.Algorithm d)); [by apply blobDir_eq|done].
  - intros E. apply (f_equal String.length) in E. rewrite length_append in E.
    simpl in E. lia.
Qed.

(* something at the blob path, in a blob directory: the write is skipped *)
Lemma writeLayer_skip (l l1 : Layout) (lyr : v1.Layer) (d : v1.Hash) (r : Reader) (fs : FS) :
  v1.Digest lyr = Ok d -> Compressed l lyr = (l1, Ok r) ->
  fs !! blobDir l d = Some Dir -> is_Some (fs !! blobPath l d) ->
  writeLayer l lyr fs = (l1, fs, None).
Proof.
  intros Hd Hc Hdir [n Hn]. unfold writeLayer. rewrite Hd, Hc.
  fold (blobDir l d). fold (blobPath l d).
  rewrite MkdirAll_dir by done. cbv iota beta. unfold Stat. rewrite Hn. by destruct n.
Qed.

(** X7.  A copy that fails part of the way leaves what it wrote: when the
    bytes of a layer end in a read error, [writeLayer] returns that error and
    the blob path holds the bytes read so far; every later write of a layer
    with this digest finds the path taken, reports success and leaves the
    partial blob as it is. *)
Theorem writeLayer_partial_blob (l l1 : Layout) (lyr : v1.Layer) (d : v1.Hash)
    (r : Reader) (e : error) (fs : FS) :
  plain (v1.Algorithm d) = true -> plain (v1.Hex d) = true ->
  v1.Digest lyr = Ok d -> Compressed l lyr = (l1, Ok r) -> rd_err r = Some e ->
  fs !! blobDir l d = Some Dir -> fs !! blobPath l d = None ->
  let fs1 := <[blobPath l d := Regular (rd_data r)]> fs in
  writeLayer l lyr fs = (l1, fs1, Some e)
  /\ forall lyr2 l2 r2,
       v1.Digest lyr2 = Ok d -> Compressed l1 lyr2 = (l2, Ok r2) ->
       writeLayer l1 lyr2 fs1 = (l2, fs1, None).
Proof.
  intros Ha Hh Hd Hc He Hdir Hn fs1.
  destruct (blobPath_parent l d Ha Hh) as [Hp Hne].
  split.
  - unfold writeLayer. rewrite Hd, Hc. fold (blobDir l d). fold (blobPath l d).
    rewrite MkdirAll_dir by done. cbv iota beta. unfold Stat. rewrite Hn.
    rewrite (Create_absent _ _ Hn). unfold check_parent. rewrite Hp, Hdir.
    by rewrite io_Copy_created, He.
  - intros lyr2 l2 r2 Hd2 Hc2.
    destruct (Compressed_Root _ _ _ _ Hc) as [HR _].
    assert (blobDir l1 d = blobDir l d) as ED by (unfold blobDir; by rewrite HR).
    assert (blobPath l1 d = blobPath l d) as EP by (by apply blobPath_Root).
    apply (writeLayer_skip _ _ _ d r2); [done..| |].
    + rewrite ED. unfold fs1. by rewrite lookup_insert_ne.
    + rewrite EP. unfold fs1. rewrite lookup_insert_eq. eauto.
Qed.

(* a single element, in the working directory or at the root, has no parent
   for MkdirAll to make *)
Lemma parentOf_single (pre x : string) :
  sepfree x = true -> x <> "" -> pre = "" \/ pre = "/" -> parentOf (pre ++ x) = None.
Proof.
  intros Hsf Hne Hpre.
  assert (forallb (fun c => negb (IsPathSeparator c)) (rev (chars x)) = true) as Hall
    by (by rewrite forallb_rev).
  unfold parentOf.
  assert (rev (chars (pre ++ x)) = rev (chars x) ++ rev (chars pre))%list as ->
    by (by rewrite chars_app, rev_app_distr).
  destruct (rev (chars x)) as [|c r] eqn:Hr.
  { apply (f_equal (@length _)) in Hr. rewrite length_rev, length_chars in Hr.
    by destruct x. }
  pose proof Hall as Hall'. simpl in Hall'. apply andb_true_iff in Hall' as [Hc _].
  apply negb_true_iff in Hc.
  change ((c :: r) ++ rev (chars pre))%list with (c :: (r ++ rev (chars pre)))%list.
  rewrite drop_while_head by done.
  change (c :: (r ++ rev (chars pre)))%list with ((c :: r) ++ rev (chars pre))%list.
  rewrite drop_while_all by done. by destruct Hpre as [->| ->].
Qed.

(* the parent of root/x, when it has one, is the cleaned root; the root is
   neither root/x nor below it *)
Lemma Join_parent (r x : string) :
  plain x = true ->
  match parentOf (Join [r; x]) with Some par => par = Clean r | None => True end
  /\ below (Join [r; x]) (Clean r) = false.
Proof.
  intros Hx. destruct (plain_sepfree x Hx) as [Hsf Hxne].
  assert (parentOf x = None /\ parentOf ("/" ++ x) = None) as [P1 P2].
  { split; [apply (parentOf_single "")|apply (parentOf_single "/")]; auto. }
  assert (below x "." = false /\ below ("/" ++ x) "/" = false) as [B1 B2].
  { unfold below. split; apply orb_false_iff; split.
    - apply String.eqb_neq. intros <-. by vm_compute in Hx.
    - destruct (String.prefix (x ++ "/") ".") eqn:E; [|done].
      apply prefix_length in E. rewrite length_append in E. simpl in E.
      destruct x; [done|simpl in E; lia].
    - apply String.eqb_neq. change ("/" ++ x) with (String "/" x). intros [= <-]. done.
    - destruct (String.prefix (("/" ++ x) ++ "/") "/") eqn:E; [|done].
      apply prefix_length in E. rewrite !length_append in E. simpl in E. lia. }
  rewrite Join_dir_name by done.
  destruct (String.eqb_spec r "") as [->|Hr].
  { rewrite P1. done. }
  unfold Clean. destruct (String.eqb_spec r "") as [|_]; [done|].
  pose proof (norm_split_good r) as Hg.
  destruct (norm (is_rooted r) (split_sep r)) as [|e fw] eqn:Hn using rev_ind.
  - destruct (is_rooted r); simpl; [by rewrite P2|by rewrite P1].
  - clear IHfw.
    rewrite (render_snoc _ (fw ++ [e]) x) by (by destruct fw).
    rewrite (parentOf_child _ e); [|by exists (is_rooted r), fw|done].
    split; [done|].
    apply not_true_is_false. intros E%below_length.
    rewrite length_append in E. simpl in E. lia.
Qed.

Lemma MkdirAll_rec_S (k : nat) (path par : string) (fs fs1 : FS) :
  fs !! path = None -> parentOf path = Some par ->
  MkdirAll_rec k par fs = (fs1, None) -> fs1 !! path = None ->
  MkdirAll_rec (S k) path fs = (<[path := Dir]> fs1, None).
Proof.
  intros Hn Hp Hr Hn1. simpl. unfold Stat at 1. rewrite Hn, Hp, Hr.
  unfold Mkdir, check_parent. rewrite Hn1, Hp.
  by rewrite (MkdirAll_rec_Ok _ _ _ _ Hr).
Qed.

(* on a store whose root is there, with no file in the place of its blob
   directories, the blob directory can be made *)
Lemma MkdirAll_blobs (l : Layout) (fs : FS) :
  fs !! Clean (Root l) = Some Dir ->
  (forall b, fs !! Join [Root l; "blobs"] <> Some (Regular b)) ->
  (forall b, fs !! Join [Root l; "blobs"; "sha256"] <> Some (Regular b)) ->
  exists fsm, MkdirAll (Join [Root l; "blobs"; "sha256"]) fs = (fsm, None).
Proof.
  intros Hroot H1 H2.
  set (d1 := Join [Root l; "blobs"]) in *. set (d2 := Join [Root l; "blobs"; "sha256"]) in *.
  assert (d2 = d1 ++ String Separator "sha256") as E2
    by (apply (Join_snoc [Root l] "blobs" "sha256"); done).
  assert (parentOf d2 = Some d1) as P2.
  { rewrite E2. apply (parentOf_child _ "blobs"); [|done]. by apply (Join_last [Root l]). }
  assert (d2 <> d1) as Hne.
  { rewrite E2. intros E. apply (f_equal String.length) in E.
    rewrite length_append in E. simpl in E. lia. }
  destruct (Join_parent (Root l) "blobs" eq_refl) as [P1 _]. fold d1 in P1.
  destruct (fs !! d2) as [[b|]|] eqn:L2; [by destruct (H2 b)| |].
  { exists fs. by apply MkdirAll_dir. }
  unfold MkdirAll. destruct (String.length d2) as [|k] eqn:Hlen.
  { destruct d2; [|done]. by destruct d1. }
  destruct (fs !! d1) as [[b|]|] eqn:L1; [by destruct (H1 b)| |].
  - eexists. apply (MkdirAll_rec_S k d2 d1 fs fs); auto.
    by apply MkdirAll_rec_dir.
  - eexists. apply (MkdirAll_rec_S k d2 d1 fs (<[d1 := Dir]> fs)); auto.
    + apply MkdirAll_rec_one; [done|].
      destruct (parentOf d1) as [par|]; [|done]. by rewrite P1.
    + by rewrite lookup_insert_ne.
Qed.

(** X8.  On a store whose root is an existing directory, with no file in
    the place of [blobs] or of [blobs/sha256] under it, [writeBlobData]
    succeeds for every payload: the blob directory is there afterwards and
    the path of the payload's digest holds what it held before or, when it
    was free, the payload. *)
Theorem writeBlobData_succeeds (l : Layout) (data : list byte) (fs : FS) :
  fs !! Clean (Root l) = Some Dir ->
  (forall b, fs !! Join [Root l; "blobs"] <> Some (Regular b)) ->
  (forall b, fs !! Join [Root l; "blobs"; "sha256"] <> Some (Regular b)) ->
  let p := Join [Root l; "blobs"; "sha256"] ++ "/" ++ EncodeToString (SHA256.Sum256 data) in
  exists fs', writeBlobData l data fs = (l, fs', None)
    /\ fs' !! Join [Root l; "blobs"; "sha256"] = Some Dir
    /\ fs' !! p = match fs !! p with
                  | Some n => Some n
                  | None => Some (Regular data)
                  end.
Proof.
  intros Hroot H1 H2 p. destruct (MkdirAll_blobs l fs Hroot H1 H2) as [fsm Hm].
  set (d2 := Join [Root l; "blobs"; "sha256"]) in *.
  pose proof (writeBlobData_eq l data fs) as Hw. cbv zeta in Hw.
  change (blobDir l (v1.SHA256 data)) with d2 in Hw.
  change (v1.Hex (v1.SHA256 data)) with (EncodeToString (SHA256.Sum256 data)) in Hw.
  change (d2 ++ String Separator (EncodeToString (SHA256.Sum256 data))) with p in Hw.
  rewrite Hm in Hw. eexists. split; [exact Hw|].
  pose proof (MkdirAll_Ok _ _ _ Hm) as Hd2.
  assert (fsm !! p = fs !! p) as Hp.
  { apply (MkdirAll_rec_longer _ _ _ _ _ _ Hm). unfold p. rewrite length_append. simpl. lia. }
  assert (p <> d2) as Hpd.
  { unfold p. intros E. apply (f_equal String.length) in E.
    rewrite length_append in E. simpl in E. lia. }
  rewrite <- Hp. destruct (fsm !! p) as [n|] eqn:L; [done|].
  rewrite lookup_insert_ne by done. by rewrite lookup_insert_eq.
Qed.

(** X9.  Blob writes do not depend on their order: two payloads with
    different digests, written one after the other, leave the same file
    system whichever is written first. *)
Theorem writeBlobData_commute (l : Layout) (a b : list byte) (fs fs1 fs2 : FS) :
  writeBlobData l a fs = (l, fs1, None) ->
  writeBlobData l b fs1 = (l, fs2, None) ->
  v1.Hex (v1.SHA256 a) <> v1.Hex (v1.SHA256 b) ->
  exists fs1', writeBlobData l b fs = (l, fs1', None)
               /\ writeBlobData l a fs1' = (l, fs2, None).
Proof.
  rewrite !writeBlobData_eq. cbv zeta.
  change (blobDir l (v1.SHA256 b)) with (blobDir l (v1.SHA256 a)).
  set (dir := blobDir l (v1.SHA256 a)).
  set (pa := dir ++ String Separator (v1.Hex (v1.SHA256 a))).
  set (pb := dir ++ String Separator (v1.Hex (v1.SHA256 b))).
  intros Ha Hb Hne.
  assert (pa <> pb) as Hp.
  { unfold pa, pb. intros E%append_inj_r. by injection E. }
  destruct (MkdirAll dir fs) as [fsm [e|]] eqn:Hm; [done|].
  pose proof (MkdirAll_Ok _ _ _ Hm) as Hd.
  assert (forall p data, (match fsm !! p with
                          | Some _ => fsm
                          | None => <[p := Regular data]> fsm
                          end) !! dir = Some Dir) as Hkeep.
  { intros p' data. destruct (fsm !! p') eqn:L; [done|].
    rewrite lookup_insert_ne; [done|]. intros ->. congruence. }
  injection Ha as <-. rewrite (MkdirAll_dir _ _ (Hkeep pa a)) in Hb. injection Hb as <-.
  eexists. split; [reflexivity|]. rewrite writeBlobData_eq. cbv zeta. fold dir pa.
  rewrite (MkdirAll_dir _ _ (Hkeep pb b)).
  f_equal. f_equal.
  destruct (fsm !! pa) eqn:La, (fsm !! pb) eqn:Lb;
    rewrite ?La, ?Lb, ?lookup_insert_ne, ?La, ?Lb by done; try done.
  by apply insert_insert_ne.
Qed.

(** ** [Flush], beyond one call *)

Lemma Flush_lookup (l : Layout) (fs : FS) :
  exists fs', Flush l fs = (fs', None)
    /\ forall k, fs' !! k
         = if below (Join [Root l; "blobs"]) k
              || below (Join [Root l; "index.json"]) k
              || below (Join [Root l; "oci-layout"]) k
           then None else fs !! k.
Proof.
  unfold Flush.
  destruct (Flush_target (Root l) "blobs" "s" "b" ["o"; "l"; "b"]%char) as [N1 D1]; [done..|].
  destruct (Flush_target (Root l) "index.json" "n" "o"
              ["s"; "j"; "."; "x"; "e"; "d"; "n"; "i"]%char) as [N2 D2]; [done..|].
  destruct (Flush_target (Root l) "oci-layout" "t" "u"
              ["o"; "y"; "a"; "l"; "-"; "i"; "c"; "o"]%char) as [N3 D3]; [done..|].
  destruct (RemoveAll_lookup _ fs N1 D1) as (fs1 & -> & H1).
  destruct (RemoveAll_lookup _ fs1 N2 D2) as (fs2 & -> & H2).
  destruct (RemoveAll_lookup _ fs2 N3 D3) as (fs3 & -> & H3).
  exists fs3. split; [done|]. intros k. rewrite H3, H2, H1.
  by destruct (below _ k), (below _ k), (below _ k).
Qed.


(** X11.  [Flush] keeps the root directory of the store: only what is under
    it at [blobs], [index.json] and [oci-layout] goes, so the cleaned root
    names after the call what it named before. *)
Theorem Flush_keeps_root (l : Layout) (fs : FS) :
  (Flush l fs).1 !! Clean (Root l) = fs !! Clean (Root l).
Proof.
  destruct (Flush_lookup l fs) as (fs1 & -> & H1). simpl. rewrite H1.
  destruct (Join_parent (Root l) "blobs" eq_refl) as [_ ->].
  destruct (Join_parent (Root l) "index.json" eq_refl) as [_ ->].
  by destruct (Join_parent (Root l) "oci-layout" eq_refl) as [_ ->].
Qed.

Lemma below_app (p rest : string) : below p (p ++ String Separator rest) = true.
Proof.
  unfold below. apply orb_true_iff. right.
  change (p ++ String Separator rest) with (p ++ "/" ++ rest).
  rewrite <- append_assoc. apply prefix_app.
Qed.

(** X12.  [Flush] removes every blob of the store: for a digest whose
    algorithm and hex are plain path elements, neither the blob directory
    nor the blob path is there afterwards, whatever was written before. *)
Theorem Flush_blobs_gone (l : Layout) (fs : FS) (d : v1.Hash) :
  plain (v1.Algorithm d) = true -> plain (v1.Hex d) = true ->
  (Flush l fs).1 !! blobDir l d = None /\ (Flush l fs).1 !! blobPath l d = None.
Proof.
  intros Ha Hh. destruct (Flush_lookup l fs) as (fs1 & -> & H1). simpl.
  rewrite !H1, blobPath_eq by done. destruct (blobDir_eq l d Ha) as [-> _].
  rewrite append_assoc.
  change (String Separator (v1.Algorithm d) ++ String Separator (v1.Hex d))
    with (String Separator (v1.Algorithm d ++ String Separator (v1.Hex d))).
  by rewrite !below_app.
Qed.

(** ** [AddOCI], beyond one call *)

Lemma errgroup_Go_preserves (l l' : Layout) (tasks : list v1.Layer) (fs fs' : FS)
    (errs : list (option error)) (k : string) (n : node) :
  errgroup_Go l tasks fs = (l', fs', errs) -> fs !! k = Some n -> fs' !! k = Some n.
Proof.
  revert l fs l' fs' errs. induction tasks as [|lyr rest IH]; intros l fs l' fs' errs; simpl.
  - by intros [= _ <- _].
  - destruct (writeLayer l lyr fs) as [[l1 fs1] err] eqn:Hw.
    destruct (errgroup_Go l1 rest fs1) as [[l2 fs2] errs'] eqn:Hg.
    intros [= _ <- _] Hk. eapply IH; [exact Hg|]. by eapply writeLayer_preserves.
Qed.

Section AddFacts.
Variable Marshal : v1.Manifest -> result (list byte).
Variable encodeIndex : list content.IndexEntry -> list byte.
Variable schedule : nat -> list nat.

(* the index file is all that an append touches *)
Lemma AddIndex_frame (o o' : content.OCI) (idx : ocispec.Descriptor) (fs fs' : FS)
    (err : option error) (k : string) :
  content.AddIndex encodeIndex o idx fs = (o', fs', err) ->
  k <> Join [content.root o; "index.json"] -> fs' !! k = fs !! k.
Proof.
  unfold content.AddIndex.
  destruct (ocispec.Annotations idx !! ocispec.AnnotationRefName); [|by intros [= _ <- _]].
  unfold content.SaveIndex, Create, io_Copy, File_Write. simpl content.root.
  set (p := Join [content.root o; "index.json"]).
  intros H Hk.
  destruct (fs !! p) as [[b|]|]; [| |destruct (check_parent "open" fs p)];
    rewrite ?lookup_insert_eq in H; injection H as _ <- _;
    by rewrite ?lookup_insert_ne.
Qed.

(** X13.  [AddOCI] overwrites no blob: whatever it returns, every path
    other than the index file that named a file or a directory before names
    the same file, with the same bytes, or directory afterwards; the root of
    the store stays as it is. *)
Theorem AddOCI_never_overwrites (l l' : Layout) (fs fs' : FS) (oci : artifacts.OCI)
    (ref : string) (r : ocispec.Descriptor * option error) :
  AddOCI Marshal encodeIndex schedule l fs oci ref = (l', fs', r) ->
  Root l' = Root l
  /\ forall k n, k <> Join [content.root (OCI l); "index.json"] ->
       fs !! k = Some n -> fs' !! k = Some n.
Proof.
  unfold AddOCI, fail.
  destruct (artifacts.Manifest _) as [m|e]; [|by intros [= <- <- _]].
  destruct (Marshal m) as [mdata|e]; [|by intros [= <- <- _]].
  destruct (writeBlobData l mdata fs) as [[l1 fs1] err1] eqn:Hw1.
  destruct (writeBlobData_inv _ _ _ _ _ _ Hw1) as (-> & _).
  assert (forall k n, fs !! k = Some n -> fs1 !! k = Some n) as P1
    by (intros k n; by eapply writeLayer_preserves).
  destruct err1; [intros [= <- <- _]; by auto|].
  destruct (artifacts.RawConfig _) as [cdata|e]; [|intros [= <- <- _]; by auto].
  destruct (writeBlobData l cdata fs1) as [[l2 fs2] err2] eqn:Hw2.
  destruct (writeBlobData_inv _ _ _ _ _ _ Hw2) as (-> & _).
  assert (forall k n, fs !! k = Some n -> fs2 !! k = Some n) as P2.
  { intros k n Hk. eapply writeLayer_preserves; [exact Hw2|]. auto. }
  destruct err2; [intros [= <- <- _]; by auto|].
  destruct (artifacts.Layers _) as [layers|e]; [|intros [= <- <- _]; by auto].
  destruct (errgroup_Go l _ fs2) as [[l3 fs3] errs] eqn:Hg.
  assert (forall k n, fs !! k = Some n -> fs3 !! k = Some n) as P3.
  { intros k n Hk. eapply errgroup_Go_preserves; [exact Hg|]. auto. }
  apply errgroup_Go_Root in Hg as [HR HO].
  destruct (errgroup_Wait errs); [intros [= <- <- _]; by auto|].
  destruct (content.AddIndex _ _ _ fs3) as [[o fs4] err4] eqn:Ha.
  assert (forall k n, k <> Join [content.root (OCI l); "index.json"] ->
                      fs !! k = Some n -> fs4 !! k = Some n) as P4.
  { intros k n Hne Hk. rewrite (AddIndex_frame _ _ _ _ _ _ k Ha) by (by rewrite HO). auto. }
  destruct err4; intros [= <- <- _]; by auto.
Qed.

Lemma errgroup_Go_digest (l l' : Layout) (tasks : list v1.Layer) (fs fs' : FS)
    (errs : list (option error)) (i : nat) (lyr : v1.Layer) :
  errgroup_Go l tasks fs = (l', fs', errs) ->
  tasks !! i = Some lyr -> errs !! i = Some None -> exists d, v1.Digest lyr = Ok d.
Proof.
  revert l fs l' fs' errs i. induction tasks as [|t rest IH]; intros l fs l' fs' errs i; simpl.
  - done.
  - destruct (writeLayer l t fs) as [[l1 fs1] err] eqn:Hw.
    destruct (errgroup_Go l1 rest fs1) as [[l2 fs2] errs'] eqn:Hg.
    intros [= _ _ <-]. destruct i as [|i]; simpl.
    + intros [= <-] [= ->].
      apply writeLayer_inv in Hw as [(e & _ & _ & _ & ?)|(d & ? & _)]; [done|eauto].
    + eauto.
Qed.

(** X14.  After a successful [AddOCI] the content of the artifact is on
    disk: something is at the blob path of the manifest bytes, whose
    SHA-256 digest the returned descriptor carries, at the blob path of the
    config bytes and, when every function of the group was run, at the blob
    path of every layer of the artifact. *)
Theorem AddOCI_stores_blobs (l l' : Layout) (fs fs' : FS) (oci : artifacts.OCI)
    (ref : string) (desc : ocispec.Descriptor) :
  AddOCI Marshal encodeIndex schedule l fs oci ref = (l', fs', (desc, None)) ->
  exists m mdata cdata layers,
    artifacts.Manifest oci = Ok m /\ Marshal m = Ok mdata
    /\ artifacts.RawConfig oci = Ok cdata /\ artifacts.Layers oci = Ok layers
    /\ ocispec.Digest desc = "sha256:" ++ v1.Hex (v1.SHA256 mdata)
    /\ is_Some (fs' !! blobPath l (v1.SHA256 mdata))
    /\ is_Some (fs' !! blobPath l (v1.SHA256 cdata))
    /\ (schedule (length layers) ≡ₚ seq 0 (length layers) ->
        Forall (fun lyr => exists d, v1.Digest lyr = Ok d
                                     /\ is_Some (fs' !! blobPath l d)) layers).
Proof.
  intros (m & mdata & cdata & layers' & fs1 & fs2 & l3 & fs3 & errs & Hm & HM & Hw1 & Hc
          & Hw2 & Hl & Hg & Hwait & -> & o & Ha & ->)%AddOCI_Ok_inv.
  assert (exists layers, artifacts.Layers oci = Ok layers
            /\ length layers' = length layers
            /\ forall lyr, lyr ∈ layers ->
                 exists lyr', lyr' ∈ layers' /\ v1.Digest lyr' = v1.Digest lyr)
    as (layers & HL & Hlen & Hin).
  { unfold offered in Hl. destruct (cache l).
    - simpl in Hl. destruct (artifacts.Layers oci) as [ls|]; [|done].
      injection Hl as <-. exists ls. split; [done|]. split; [by rewrite length_map|].
      intros lyr Hlyr. exists (v1.lazyLayer lyr). split; [|done].
      apply list_elem_of_fmap. eauto.
    - exists layers'. eauto. }
  apply (AddIndex_inv encodeIndex _ _ _ ref) in Ha as (_ & _ & K4); [|apply lookup_singleton_eq].
  apply writeBlobData_inv in Hw1 as (_ & _ & B1).
  apply writeBlobData_inv in Hw2 as (_ & K2 & B2).
  assert (forall k, is_Some (fs2 !! k) -> is_Some (fs3 !! k)) as K3
    by (intros k; by eapply errgroup_Go_keeps).
  exists m, mdata, cdata, layers. do 5 (split; [done|]).
  split; [by apply K4, K3, K2, B1|]. split; [by apply K4, K3, B2|].
  intros Hperm. apply Forall_forall. intros lyr Hlyr.
  destruct (Hin lyr Hlyr) as (lyr' & Hlyr' & Hd).
  rewrite <- Hlen in Hperm.
  apply (pick_Permutation _ layers') in Hperm.
  rewrite <- Hperm in Hlyr'. apply list_elem_of_lookup in Hlyr' as [i Hi].
  destruct (errgroup_Go_present _ _ _ _ _ _ Hg) as [Hlen' Hpres].
  apply errgroup_Wait_None in Hwait.
  assert (errs !! i = Some None) as Hei.
  { destruct (errs !! i) as [e|] eqn:E.
    - by rewrite (proj1 (Forall_lookup _ _) Hwait i e E).
    - apply lookup_ge_None in E. apply lookup_lt_Some in Hi. lia. }
  destruct (errgroup_Go_digest _ _ _ _ _ _ _ _ Hg Hi Hei) as [d Hd'].
  exists d. split; [by rewrite <- Hd|]. apply K4. eauto.
Qed.

(* the loop returns, for each pair, the descriptor of its manifest *)
Lemma addEach_descriptors (l l1 : Layout) (fs fs1 : FS) (cnts : list (string * artifacts.OCI))
    (acc descs : list ocispec.Descriptor) :
  addEach Marshal encodeIndex schedule l fs cnts acc = (l1, fs1, (descs, None)) ->
  exists new, descs = (acc ++ new)%list
    /\ Forall2 (fun c desc => exists m mdata,
                  artifacts.Manifest c.2 = Ok m /\ Marshal m = Ok mdata
                  /\ desc = manifestDescriptor m mdata c.1) cnts new.
Proof.
  revert l fs acc. induction cnts as [|[ref oci] cnts IH]; intros l fs acc; simpl.
  - intros [= _ _ <-]. exists []. split; [by rewrite app_nil_r|constructor].
  - destruct (AddOCI Marshal encodeIndex schedule l fs oci ref) as [[l2 fs2] [desc [e|]]] eqn:Ha;
      [done|].
    intros (new & -> & Hnew)%IH.
    apply AddOCI_Ok_inv in Ha as (m & mdata & cdata & layers & fsa & fsb & l3 & fs3 & errs
                                  & Hm & HM & _ & _ & _ & _ & _ & _ & Hdesc & _).
    exists (desc :: new). split; [by rewrite <- app_assoc|].
    constructor; [|done]. simpl. eauto.
Qed.

(** X15.  A successful [AddOCICollection] returns one descriptor for each
    pair of the collection, in the order of the iteration: the descriptor of
    the marshalled manifest of the artifact, annotated with the reference of
    the pair.  When [Contents] fails, its error is returned as it is and
    nothing is touched; an empty collection gives no descriptor and no
    error. *)
Theorem AddOCICollection_descriptors (l : Layout) (fs : FS) :
  (forall cnts l1 fs1 descs,
     AddOCICollection Marshal encodeIndex schedule l fs {| artifacts.Contents := Ok cnts |}
       = (l1, fs1, (descs, None)) ->
     Forall2 (fun c desc => exists m mdata,
                artifacts.Manifest c.2 = Ok m /\ Marshal m = Ok mdata
                /\ desc = manifestDescriptor m mdata c.1) cnts descs)
  /\ (forall err,
        AddOCICollection Marshal encodeIndex schedule l fs {| artifacts.Contents := Err err |}
          = (l, fs, ([], Some err)))
  /\ AddOCICollection Marshal encodeIndex schedule l fs {| artifacts.Contents := Ok [] |}
     = (l, fs, ([], None)).
Proof.
  split; [|done]. intros cnts l1 fs1 descs. unfold AddOCICollection. simpl.
  by intros (new & -> & Hnew)%addEach_descriptors.
Qed.
End AddFacts.

(** ** Adding an artifact again *)

Lemma Compressed_no_cache (l : Layout) (lyr : v1.Layer) :
  cache l = None -> Compressed l lyr = (l, (layer.Compressed lyr ∅).2).
Proof. unfold Compressed. intros ->. by destruct (layer.Compressed lyr ∅). Qed.

Lemma writeLayer_no_cache (l l' : Layout) (lyr : v1.Layer) (fs fs' : FS) (err : option error) :
  cache l = None -> writeLayer l lyr fs = (l', fs', err) -> l' = l.
Proof.
  intros Hc [(e & _ & -> & _)|(d & _ & H)]%writeLayer_inv; [done|].
  destruct H as [l1 ? H|l1 ? ? ? H|l1 ? ? H|l1 ? ? ? H|l1 ? ? H];
    rewrite Compressed_no_cache in H by done; by injection H.
Qed.

Lemma blobDir_Root (l l' : Layout) (d : v1.Hash) :
  Root l' = Root l -> blobDir l' d = blobDir l d.
Proof. unfold blobDir. by intros ->. Qed.

(* a write that succeeded leaves the blob directory and the blob *)
Lemma writeLayer_Ok_dir (l l' : Layout) (lyr : v1.Layer) (fs fs' : FS) :
  writeLayer l lyr fs = (l', fs', None) ->
  exists d r, v1.Digest lyr = Ok d /\ Compressed l lyr = (l', Ok r)
    /\ fs' !! blobDir l d = Some Dir /\ is_Some (fs' !! blobPath l d).
Proof.
  unfold writeLayer. destruct (v1.Digest lyr) as [d|e]; [|done].
  destruct (Compressed l lyr) as [l1 [r|e]]; [|done].
  fold (blobDir l d). fold (blobPath l d).
  destruct (MkdirAll (blobDir l d) fs) as [fs1 [e|]] eqn:Hm.
  { rewrite (MkdirAll_rec_not_IsExist _ _ _ _ _ Hm). done. }
  pose proof (MkdirAll_Ok _ _ _ Hm) as Hdir. cbv iota beta.
  destruct (Stat fs1 (blobPath l d)) as [fi|e] eqn:Hs.
  { intros [= <- <-]. exists d, r. do 3 (split; [done|]). apply Stat_Ok_iff. eauto. }
  apply Stat_Err_None in Hs. rewrite (Create_absent _ _ Hs).
  destruct (check_parent "open" fs1 (blobPath l d)); [done|].
  rewrite io_Copy_created. intros [= <- <- _]. exists d, r. do 2 (split; [done|]).
  split; [|rewrite lookup_insert_eq; eauto].
  rewrite lookup_insert_ne; [done|]. intros E. rewrite E in Hs. congruence.
Qed.

Lemma errgroup_Go_no_cache (l l' : Layout) (tasks : list v1.Layer) (fs fs' : FS)
    (errs : list (option error)) :
  cache l = None -> errgroup_Go l tasks fs = (l', fs', errs) -> l' = l.
Proof.
  intros Hc. revert fs l' fs' errs. induction tasks as [|lyr rest IH]; intros fs l' fs' errs; simpl.
  - by intros [= <- _ _].
  - destruct (writeLayer l lyr fs) as [[l1 fs1] err] eqn:Hw.
    apply writeLayer_no_cache in Hw as ->; [|done].
    destruct (errgroup_Go l rest fs1) as [[l2 fs2] errs'] eqn:Hg.
    intros [= <- _ _]. eauto.
Qed.

(* in a store without a cache, the layers of a group that succeeded are all
   written: each has its bytes, its blob directory and its blob *)
Lemma errgroup_Go_written (l l' : Layout) (tasks : list v1.Layer) (fs fs' : FS)
    (errs : list (option error)) :
  cache l = None -> errgroup_Go l tasks fs = (l', fs', errs) ->
  Forall (fun e => e = None) errs ->
  Forall (fun lyr => exists d r, v1.Digest lyr = Ok d /\ (layer.Compressed lyr ∅).2 = Ok r
                       /\ fs' !! blobDir l d = Some Dir /\ is_Some (fs' !! blobPath l d)) tasks.
Proof.
  intros Hc. revert fs l' fs' errs. induction tasks as [|lyr rest IH]; intros fs l' fs' errs; simpl.
  - constructor.
  - destruct (writeLayer l lyr fs) as [[l1 fs1] err] eqn:Hw.
    pose proof (writeLayer_no_cache _ _ _ _ _ _ Hc Hw) as ->.
    destruct (errgroup_Go l rest fs1) as [[l2 fs2] errs'] eqn:Hg.
    intros [= <- <- <-] Hall. inversion Hall as [|? ? -> Hall']; subst.
    constructor; [|by eapply IH].
    destruct (writeLayer_Ok_dir _ _ _ _ _ Hw) as (d & r & Hd & Hcomp & Hdir & Hp).
    rewrite Compressed_no_cache in Hcomp by done. injection Hcomp as Hcomp.
    exists d, r. split; [done|]. split; [done|]. split.
    + by eapply errgroup_Go_preserves.
    + by eapply errgroup_Go_keeps.
Qed.

(* and a group over layers that are all written changes nothing *)
Lemma errgroup_Go_skip (l : Layout) (tasks : list v1.Layer) (fs : FS) :
  cache l = None ->
  Forall (fun lyr => exists d r, v1.Digest lyr = Ok d /\ (layer.Compressed lyr ∅).2 = Ok r
                       /\ fs !! blobDir l d = Some Dir /\ is_Some (fs !! blobPath l d)) tasks ->
  exists errs, errgroup_Go l tasks fs = (l, fs, errs) /\ errgroup_Wait errs = None.
Proof.
  intros Hc. induction tasks as [|lyr rest IH]; intros Hall; simpl.
  - by exists [].
  - inversion Hall as [|? ? (d & r & Hd & Hcomp & Hdir & Hp) Hall']; subst.
    rewrite (writeLayer_skip l l lyr d r); [|done| |done..].
    2:{ rewrite Compressed_no_cache by done. by rewrite Hcomp. }
    destruct (IH Hall') as (errs & -> & Hw). by exists (None :: errs).
Qed.

Section AgainFacts.
Variable Marshal : v1.Manifest -> result (list byte).
Variable encodeIndex : list content.IndexEntry -> list byte.
Variable schedule : nat -> list nat.

(* an append that succeeded left the index file; no directory is lost *)
Lemma AddIndex_Ok_file (o o' : content.OCI) (idx : ocispec.Descriptor) (fs fs' : FS) :
  content.AddIndex encodeIndex o idx fs = (o', fs', None) ->
  (exists b, fs' !! Join [content.root o; "index.json"] = Some (Regular b))
  /\ forall k, fs !! k = Some Dir -> fs' !! k = Some Dir.
Proof.
  unfold content.AddIndex.
  destruct (ocispec.Annotations idx !! ocispec.AnnotationRefName); [|done].
  unfold content.SaveIndex, Create, io_Copy, File_Write. simpl content.root.
  set (p := Join [content.root o; "index.json"]).
  intros H.
  assert (forall b, fs !! p <> Some Dir ->
            (exists b0, <[p := Regular b]> fs !! p = Some (Regular b0))
            /\ forall k, fs !! k = Some Dir -> <[p := Regular b]> fs !! k = Some Dir) as Hins.
  { intros b Hp. split; [rewrite lookup_insert_eq; eauto|].
    intros k Hk. rewrite lookup_insert_ne; [done|]. by intros <-. }
  destruct (fs !! p) as [[b|]|] eqn:L; [|done|destruct (check_parent "open" fs p); [done|]];
    rewrite lookup_insert_eq in H; injection H as _ <-; rewrite insert_insert_eq;
    by apply Hins.
Qed.

(* over an index file that is there, an append succeeds *)
Lemma AddIndex_again (o : content.OCI) (idx : ocispec.Descriptor) (ref : string)
    (fs : FS) (b : list byte) :
  ocispec.Annotations idx !! ocispec.AnnotationRefName = Some ref ->
  fs !! Join [content.root o; "index.json"] = Some (Regular b) ->
  exists o' fs', content.AddIndex encodeIndex o idx fs = (o', fs', None)
    /\ content.index o'
       = (content.index o ++ [{| content.reference := ref; content.descriptor := idx |}])%list.
Proof.
  intros Ha Hp. unfold content.AddIndex. rewrite Ha.
  unfold content.SaveIndex, Create, io_Copy, File_Write. simpl content.root.
  rewrite Hp, lookup_insert_eq. eauto.
Qed.

(** X16.  Adding an artifact that was added before writes no blob again.
    In a store without a cache, after an [AddOCI] that succeeded with every
    function of its group run, a second [AddOCI] of the same artifact, under
    any reference and any order of the layer writes, succeeds as well: its
    descriptor carries the same digest, the file system differs at most in
    the index file, and the index has grown by one entry for each call. *)
Theorem AddOCI_again (l l1 : Layout) (fs fs1 : FS) (oci : artifacts.OCI) (ref : string)
    (desc : ocispec.Descriptor) (schedule' : nat -> list nat) (ref' : string) :
  cache l = None ->
  (forall n, schedule n ≡ₚ seq 0 n) ->
  AddOCI Marshal encodeIndex schedule l fs oci ref = (l1, fs1, (desc, None)) ->
  exists l2 fs2 desc',
    AddOCI Marshal encodeIndex schedule' l1 fs1 oci ref' = (l2, fs2, (desc', None))
    /\ ocispec.Digest desc' = ocispec.Digest desc
    /\ (forall k, k <> Join [content.root (OCI l); "index.json"] -> fs2 !! k = fs1 !! k)
    /\ content.index (OCI l2)
       = (content.index (OCI l)
          ++ [{| content.reference := ref; content.descriptor := desc |};
              {| content.reference := ref'; content.descriptor := desc' |}])%list.
Proof.
  intros Hc Hperm Hadd.
  pose proof (AddOCI_Ok_index _ _ _ _ _ _ _ _ _ _ Hadd) as Hidx.
  apply AddOCI_Ok_inv in Hadd
    as (m & mdata & cdata & layers & fsa & fsb & l3 & fs3 & errs & Hm & HM & Hw1 & Hcfg
        & Hw2 & Hl & Hg & Hwait & -> & o & Ha & ->).
  pose proof (errgroup_Go_no_cache _ _ _ _ _ _ Hc Hg) as ->.
  unfold offered in Hl. rewrite Hc in Hl.
  set (l1 := with_OCI l o).
  assert (Root l1 = Root l /\ cache l1 = None) as [HR Hc1] by done.
  pose proof (AddIndex_inv encodeIndex _ _ _ ref _ _ _ (lookup_singleton_eq _ _) Ha)
    as (_ & Hroot & K4).
  destruct (AddIndex_Ok_file _ _ _ _ _ Ha) as [[b Hfile] D4].
  (* what the first call left *)
  assert (forall lyr fs0 fs0', writeLayer l lyr fs0 = (l, fs0', None) ->
            (forall k, fs0' !! k = Some Dir -> fs1 !! k = Some Dir) ->
            (forall k, is_Some (fs0' !! k) -> is_Some (fs1 !! k)) ->
            exists d r, v1.Digest lyr = Ok d /\ Compressed l1 lyr = (l1, Ok r)
              /\ fs1 !! blobDir l1 d = Some Dir /\ is_Some (fs1 !! blobPath l1 d)) as Hleft.
  { intros lyr fs0 fs0' Hw HD HK.
    destruct (writeLayer_Ok_dir _ _ _ _ _ Hw) as (d & r & Hd & Hcomp & Hdir & Hp).
    exists d, r. rewrite (blobDir_Root l l1), (blobPath_Root l l1) by done.
    rewrite Compressed_no_cache in Hcomp by done. injection Hcomp as Hcomp.
    rewrite Compressed_no_cache by done. rewrite Hcomp. auto. }
  assert (forall k, fsb !! k = Some Dir -> fs1 !! k = Some Dir) as DB.
  { intros k Hk. apply D4. by eapply errgroup_Go_preserves. }
  assert (forall k, is_Some (fsb !! k) -> is_Some (fs1 !! k)) as KB.
  { intros k Hk. apply K4. by eapply errgroup_Go_keeps. }
  assert (forall data, (exists fs0 fs0', writeBlobData l data fs0 = (l, fs0', None)
                          /\ (forall k, fs0' !! k = Some Dir -> fs1 !! k = Some Dir)
                          /\ (forall k, is_Some (fs0' !! k) -> is_Some (fs1 !! k))) ->
            writeBlobData l1 data fs1 = (l1, fs1, None)) as Hblob.
  { intros data (fs0 & fs0' & Hw & HD & HK).
    destruct (Hleft _ _ _ Hw HD HK) as (d & r & Hd & Hcomp & Hdir & Hp).
    by apply (writeLayer_skip _ _ _ d r). }
  unfold AddOCI. rewrite Hc1, Hm, HM.
  rewrite (Hblob mdata).
  2:{ exists fs, fsa. split; [done|]. split.
      - intros k Hk. apply DB. by eapply writeLayer_preserves.
      - intros k Hk. apply KB. by eapply writeLayer_keeps. }
  rewrite Hcfg, (Hblob cdata) by (exists fsa, fsb; auto).
  rewrite Hl.
  (* the layers *)
  apply errgroup_Wait_None in Hwait.
  pose proof (errgroup_Go_written _ _ _ _ _ _ Hc Hg Hwait) as Hwr.
  rewrite (pick_Permutation _ layers) in Hwr by apply Hperm.
  assert (Forall (fun lyr => exists d r, v1.Digest lyr = Ok d
                     /\ (layer.Compressed lyr ∅).2 = Ok r
                     /\ fs1 !! blobDir l1 d = Some Dir /\ is_Some (fs1 !! blobPath l1 d))
            (pick (schedule' (length layers)) layers)) as Hall.
  { apply Forall_forall. intros lyr Hlyr.
    apply list_elem_of_omap in Hlyr as (i & _ & Hi). apply list_elem_of_lookup_2 in Hi.
    destruct (proj1 (Forall_forall _ _) Hwr lyr Hi) as (d & r & Hd & Hcomp & Hdir & Hp).
    exists d, r. rewrite (blobDir_Root l l1), (blobPath_Root l l1) by done. auto. }
  destruct (errgroup_Go_skip l1 _ fs1 Hc1 Hall) as (errs' & -> & ->).
  destruct (AddIndex_again (OCI l1) (manifestDescriptor m mdata ref') ref' fs1 b)
    as (o' & fs2 & Ha' & Hidx'); [apply lookup_singleton_eq| |].
  { change (content.root (OCI l1)) with (content.root o). by rewrite Hroot. }
  fold (manifestDescriptor m mdata ref'). rewrite Ha'.
  exists (with_OCI l1 o'), fs2, (manifestDescriptor m mdata ref').
  split; [done|]. split; [done|]. split.
  - intros k Hk. apply (AddIndex_frame encodeIndex _ _ _ _ _ _ k Ha').
    change (content.root (OCI l1)) with (content.root o). by rewrite Hroot.
  - change (content.index (OCI (with_OCI l1 o'))) with (content.index o').
    rewrite Hidx'. fold l1 in Hidx. rewrite Hidx. by rewrite <- app_assoc.
Qed.

(** X17.  A call of [AddOCI] that fails before its last step leaves the
    index as it was: unless the error is that of the index append, the
    store names the same index after the call, with the same entries. *)
Theorem AddOCI_failure_keeps_index (l l' : Layout) (fs fs' : FS) (oci : artifacts.OCI)
    (ref : string) (desc : ocispec.Descriptor) (err : error) :
  AddOCI Marshal encodeIndex schedule l fs oci ref = (l', fs', (desc, Some err)) ->
  (forall e, err <> wrapError "add index: " e) ->
  OCI l' = OCI l.
Proof.
  unfold AddOCI, fail.
  destruct (artifacts.Manifest _) as [m|e]; [|by intros [= <- _ _]].
  destruct (Marshal m) as [mdata|e]; [|by intros [= <- _ _]].
  destruct (writeBlobData l mdata fs) as [[l1 fs1] err1] eqn:Hw1.
  destruct (writeBlobData_inv _ _ _ _ _ _ Hw1) as (-> & _).
  destruct err1; [by intros [= <- _ _]|].
  destruct (artifacts.RawConfig _) as [cdata|e]; [|by intros [= <- _ _]].
  destruct (writeBlobData l cdata fs1) as [[l2 fs2] err2] eqn:Hw2.
  destruct (writeBlobData_inv _ _ _ _ _ _ Hw2) as (-> & _).
  destruct err2; [by intros [= <- _ _]|].
  destruct (artifacts.Layers _) as [layers|e]; [|by intros [= <- _ _]].
  destruct (errgroup_Go l _ fs2) as [[l3 fs3] errs] eqn:Hg.
  apply errgroup_Go_Root in Hg as [_ Hg].
  destruct (errgroup_Wait errs); [by intros [= <- _ _]|].
  destruct (content.AddIndex _ _ _ fs3) as [[o fs4] [e4|]] eqn:Ha; [|done].
  intros [= _ _ _ <-] Hno. by destruct (Hno e4).
Qed.
End AgainFacts.

(** ** [NewLayout] *)

Lemma fold_WithCache (caches : list layer.Cache) (l : Layout) :
  Root (fold_left (fun l (opt : Options) => opt l) (map WithCache caches) l) = Root l
  /\ OCI (fold_left (fun l (opt : Options) => opt l) (map WithCache caches) l) = OCI l
  /\ cache (fold_left (fun l (opt : Options) => opt l) (map WithCache caches) l)
     = match last caches with Some c => Some c | None => cache l end.
Proof.
  revert l. induction caches as [|c caches IH]; intros l; [done|].
  simpl fold_left. destruct (IH (WithCache c l)) as (-> & -> & ->).
  split; [done|]. split; [done|]. destruct caches as [|c2 r]; [done|].
  change (last (c :: c2 :: r)) with (last (c2 :: r)). simpl cache.
  destruct (last (c2 :: r)) eqn:E; [done|]. by apply last_None in E.
Qed.

Section ConstructFacts.
Variable NewOCI : string -> FS -> FS * result content.OCI.
Variable LoadIndex : content.OCI -> FS -> FS * result content.OCI.

(** X18.  [NewLayout] applies its options in order to a store without a
    cache: with options made by [WithCache] the layout has the cache of the
    last one, and none when there is no option; its root is the directory
    given and its index the one that was loaded.  It fails exactly when the
    index store cannot be made or loaded, with that error behind "new oci: "
    or "load index: ". *)
Theorem NewLayout_options (rootdir : string) (fs : FS) :
  (forall caches fs' l,
     NewLayout NewOCI LoadIndex rootdir (map WithCache caches) fs = (fs', Ok l) ->
     Root l = rootdir /\ cache l = last caches
     /\ exists fs1 o, NewOCI rootdir fs = (fs1, Ok o) /\ LoadIndex o fs1 = (fs', Ok (OCI l)))
  /\ (forall opts fs' err,
        NewLayout NewOCI LoadIndex rootdir opts fs = (fs', Err err) <->
        (exists e, err = wrapError "new oci: " e /\ NewOCI rootdir fs = (fs', Err e))
        \/ (exists e fs1 o, err = wrapError "load index: " e
              /\ NewOCI rootdir fs = (fs1, Ok o) /\ LoadIndex o fs1 = (fs', Err e))).
Proof.
  unfold NewLayout. split.
  - intros caches fs' l.
    destruct (NewOCI rootdir fs) as [fs1 [o|e]]; [|done].
    destruct (LoadIndex o fs1) as [fs2 [o'|e]] eqn:HL; [|done].
    intros [= <- <-].
    destruct (fold_WithCache caches {| OCI := o'; Root := rootdir; cache := None |})
      as (H1 & H2 & H3).
    split; [exact H1|]. split.
    + etrans; [exact H3|]. by destruct (last caches).
    + exists fs1, o. split; [done|]. rewrite HL. f_equal. f_equal. symmetry. exact H2.
  - intros opts fs' err.
    destruct (NewOCI rootdir fs) as [fs1 [o|e]].
    + destruct (LoadIndex o fs1) as [fs2 [o'|e]] eqn:HL.
      * split; [done|]. intros [(e & _ & [=])|(e & fs1' & o0 & _ & [= <- <-] & H)].
        rewrite HL in H. done.
      * split.
        -- intros [= <- <-]. right. by exists e, fs1, o.
        -- intros [(e' & _ & [=])|(e' & fs1' & o0 & -> & [= <- <-] & H)].
           rewrite HL in H. by injection H as <- <-.
    + split.
      * intros [= <- <-]. left. by exists e.
      * intros [(e' & -> & [= <- <-])|(e' & fs1' & o0 & _ & [=] & _)]. done.
Qed.
End ConstructFacts.

(** ** [Copy] and [CopyAll], beyond the mapper *)

Section CopyFacts.
Variable Target : Type.
Variable oras_Copy :
  content.OCI -> FS -> string -> Target -> string -> Target * result ocispec.Descriptor.

(* the target reference of an entry: the mapper's, or the empty one *)
Lemma walk_copyEntry_descs (l : Layout) (fs : FS) (toMapper : option (string -> result string))
    (entries : list content.IndexEntry) (dst dst1 : Target)
    (acc descs : list ocispec.Descriptor) :
  content.walk (copyEntry Target oras_Copy l fs toMapper) entries (dst, acc)
    = ((dst1, descs), None) ->
  exists new, descs = (acc ++ new)%list
    /\ Forall2 (fun entry desc => exists toRef t t',
                  match toMapper with
                  | Some f => f (content.reference entry)
                  | None => Ok ""
                  end = Ok toRef
                  /\ oras_Copy (OCI l) fs (content.reference entry) t toRef = (t', Ok desc))
         entries new.
Proof.
  revert dst acc. induction entries as [|e entries IH]; intros dst acc; simpl.
  - intros [= _ <-]. exists []. split; [by rewrite app_nil_r|constructor].
  - destruct (match toMapper with Some f => f (content.reference e) | None => Ok "" end)
      as [toRef|err] eqn:Hm; [|done].
    unfold Copy.
    destruct (oras_Copy (OCI l) fs (content.reference e) dst toRef) as [dst2 [d|err]] eqn:Hc;
      [|done].
    intros (new & -> & Hnew)%IH. exists (d :: new). split; [by rewrite <- app_assoc|].
    constructor; [|done]. by exists toRef, dst, dst2.
Qed.

(** X19.  A [CopyAll] that succeeds has copied every entry of the index,
    in index order, and returns for each entry the descriptor that
    [oras.Copy] returned for it; the target reference of each copy is what
    the mapper made of the reference, and the empty string when there is no
    mapper.  An empty index gives no descriptor and no error. *)
Theorem CopyAll_copies (l : Layout) (fs : FS) (dst dst1 : Target)
    (toMapper : option (string -> result string)) (descs : list ocispec.Descriptor) :
  CopyAll Target oras_Copy l fs dst toMapper = (dst1, (descs, None)) ->
  Forall2 (fun entry desc => exists toRef t t',
             match toMapper with
             | Some f => f (content.reference entry)
             | None => Ok ""
             end = Ok toRef
             /\ oras_Copy (OCI l) fs (content.reference entry) t toRef = (t', Ok desc))
    (content.index (OCI l)) descs
  /\ (content.index (OCI l) = [] -> dst1 = dst /\ descs = []).
Proof.
  unfold CopyAll, content.Walk.
  destruct (content.walk _ (content.index (OCI l)) (dst, [])) as [[dst2 descs2] [e|]] eqn:Hw;
    [done|].
  intros [= <- <-]. split.
  - by apply walk_copyEntry_descs in Hw as (new & -> & Hnew).
  - intros E. rewrite E in Hw. by injection Hw as <- <-.
Qed.

(** X20.  When [oras.Copy] fails on an entry, [Copy] returns the zero
    descriptor and the error behind a prefix that names the reference and
    the target reference, and [CopyAll] stops there: the entries after it
    are not copied, no descriptor is returned, and the error is that of the
    copy behind "walk: layout copy: oras copy: ref R, toRef T: ". *)
Theorem CopyAll_copy_fails (l : Layout) (fs : FS) (dst dst1 dst2 : Target)
    (pre post : list content.IndexEntry) (entry : content.IndexEntry)
    (toMapper : option (string -> result string)) (toRef : string)
    (descs : list ocispec.Descriptor) (err : error) :
  content.index (OCI l) = (pre ++ entry :: post)%list ->
  content.walk (copyEntry Target oras_Copy l fs toMapper) pre (dst, [])
    = ((dst1, descs), None) ->
  match toMapper with Some f => f (content.reference entry) | None => Ok "" end = Ok toRef ->
  oras_Copy (OCI l) fs (content.reference entry) dst1 toRef = (dst2, Err err) ->
  let prefix := "oras copy: ref " ++ content.reference entry ++ ", toRef " ++ toRef ++ ": " in
  Copy Target oras_Copy l fs (content.reference entry) dst1 toRef
    = (dst2, (ocispec.zero, Some (wrapError prefix err)))
  /\ CopyAll Target oras_Copy l fs dst toMapper
     = (dst2, ([], Some (wrapError "walk: "
                          (wrapError "layout copy: " (wrapError prefix err)))))
  /\ Error (wrapError "walk: " (wrapError "layout copy: " (wrapError prefix err)))
     = "walk: layout copy: oras copy: ref " ++ content.reference entry
       ++ ", toRef " ++ toRef ++ ": " ++ Error err.
Proof.
  intros Hidx Hpre Hm Hc prefix.
  assert (Copy Target oras_Copy l fs (content.reference entry) dst1 toRef
          = (dst2, (ocispec.zero, Some (wrapError prefix err)))) as HC
    by (unfold Copy; by rewrite Hc).
  split; [done|]. split.
  - unfold CopyAll, content.Walk. rewrite Hidx, walk_app, Hpre. simpl.
    by rewrite Hm, HC.
  - unfold prefix. simpl Error.
    change ("walk: " ++ "layout copy: " ++ ?x) with ("walk: layout copy: " ++ x).
    by rewrite !append_assoc.
Qed.
End CopyFacts.

(** ** Where [writeLayer] writes *)

Lemma drop_while_suffix {A} (f : A -> bool) (l : list A) :
  exists pre, l = (pre ++ drop_while f l)%list.
Proof.
  induction l as [|a l [pre IH]]; simpl; [by exists []|].
  destruct (f a); [|by exists []]. exists (a :: pre). simpl. by rewrite <- IH.
Qed.

Lemma of_chars_app (a b : list ascii) : of_chars (a ++ b) = of_chars a ++ of_chars b.
Proof.
  induction a as [|c a IH]; [done|].
  change (String c (of_chars (a ++ b)) = String c (of_chars a ++ of_chars b)). by rewrite IH.
Qed.

(* the parent that MkdirAll makes first is a prefix of the path *)
Lemma parentOf_prefix (path par : string) :
  parentOf path = Some par -> String.prefix par path = true.
Proof.
  unfold parentOf.
  destruct (drop_while_suffix IsPathSeparator (rev (chars path))) as [s1 E1].
  destruct (drop_while_suffix (fun c => negb (IsPathSeparator c))
              (drop_while IsPathSeparator (rev (chars path)))) as [s2 E2].
  destruct (drop_while (fun c => negb (IsPathSeparator c)) _) as [|x [|c r]]; [done..|].
  intros [= <-]. rewrite E2 in E1.
  apply (f_equal (@rev _)) in E1. rewrite rev_involutive in E1.
  rewrite !rev_app_distr in E1.
  change (rev (x :: c :: r)) with (rev (c :: r) ++ [x])%list in E1.
  rewrite <- !app_assoc in E1.
  assert (path = of_chars (rev (c :: r)) ++ of_chars ([x] ++ rev s2 ++ rev s1)) as E.
  { rewrite <- of_chars_app, <- E1. symmetry. apply of_chars_chars. }
  rewrite E at 1. apply prefix_app.
Qed.

Lemma prefix_refl (a : string) : String.prefix a a = true.
Proof. induction a as [|c a IH]; [done|]. simpl. by destruct (ascii_dec c c). Qed.

Lemma prefix_trans (a b c : string) :
  String.prefix a b = true -> String.prefix b c = true -> String.prefix a c = true.
Proof.
  revert b c. induction a as [|x a IH]; intros b c; [by destruct c|].
  destruct b as [|y b]; [done|]. destruct c as [|z c]; [done|]. simpl.
  destruct (ascii_dec x y) as [->|]; [|done]. destruct (ascii_dec y z) as [->|]; [|done].
  destruct (ascii_dec z z); [|done]. apply IH.
Qed.

(* MkdirAll touches the path and the directories above it, nothing else *)
Lemma MkdirAll_rec_prefix (fuel : nat) (path : string) (fs fs' : FS)
    (err : option error) (k : string) :
  MkdirAll_rec fuel path fs = (fs', err) ->
  fs' !! k = fs !! k \/ String.prefix k path = true.
Proof.
  revert path fs' err. induction fuel as [|n IH]; intros path fs' err; simpl.
  - destruct (Stat fs path) as [dir|e0].
    { destruct (IsDir dir); intros [= <- <-]; auto. }
    destruct (Mkdir path fs) as [fs2 [e|]] eqn:Hm; intros H.
    + assert (fs' = fs2) as ->.
      { destruct (Stat fs2 path) as [d|]; [destruct (IsDir d)|]; by injection H. }
      destruct (Mkdir_lookup _ _ _ _ k Hm) as [?|(-> & _)]; auto using prefix_refl.
    + injection H as <- <-.
      destruct (Mkdir_lookup _ _ _ _ k Hm) as [?|(-> & _)]; auto using prefix_refl.
  - destruct (Stat fs path) as [dir|e0].
    { destruct (IsDir dir); intros [= <- <-]; auto. }
    destruct (match parentOf path with
              | Some par => MkdirAll_rec n par fs
              | None => (fs, None)
              end) as [fs1 err1] eqn:Hrec.
    intros H.
    assert (fs1 !! k = fs !! k \/ String.prefix k path = true) as Hfs1.
    { destruct (parentOf path) as [par|] eqn:Hp; [|injection Hrec as <- <-; auto].
      destruct (IH _ _ _ Hrec) as [?|Hk]; [auto|]. right.
      eapply prefix_trans; [exact Hk|]. by apply parentOf_prefix. }
    destruct err1 as [e|]; [by injection H as <- <-|].
    destruct (Mkdir path fs1) as [fs2 [e|]] eqn:Hm.
    + assert (fs' = fs2) as ->.
      { destruct (Stat fs2 path) as [d|]; [destruct (IsDir d)|]; by injection H. }
      destruct (Mkdir_lookup _ _ _ _ k Hm) as [Hk|(-> & _)]; [|auto using prefix_refl].
      destruct Hfs1 as [E|?]; [left; congruence|auto].
    + injection H as <- <-.
      destruct (Mkdir_lookup _ _ _ _ k Hm) as [Hk|(-> & _)]; [|auto using prefix_refl].
      destruct Hfs1 as [E|?]; [left; congruence|auto].
Qed.

(** X21.  [writeLayer] writes nowhere else: a path that names something
    else after the call than before was free before, and is the blob path
    of the layer's digest or a directory, made on the way, whose name is
    the blob directory or a prefix of it. *)
Theorem writeLayer_confined (l l' : Layout) (lyr : v1.Layer) (fs fs' : FS)
    (err : option error) :
  writeLayer l lyr fs = (l', fs', err) ->
  forall k, fs' !! k <> fs !! k ->
    fs !! k = None
    /\ exists d, v1.Digest lyr = Ok d
         /\ (k = blobPath l d
             \/ (fs' !! k = Some Dir /\ String.prefix k (blobDir l d) = true)).
Proof.
  intros [(e & _ & _ & -> & _)|(d & Hd & H)]%writeLayer_inv k Hk; [done|].
  assert (forall fs1 merr, MkdirAll (blobDir l d) fs = (fs1, merr) -> fs1 !! k <> fs !! k ->
            fs !! k = None /\ fs1 !! k = Some Dir /\ String.prefix k (blobDir l d) = true) as Hm.
  { intros fs1 merr Hm Hne.
    destruct (MkdirAll_lookup _ _ _ _ k Hm) as [?|[? ?]]; [done|].
    destruct (MkdirAll_rec_prefix _ _ _ _ _ k Hm) as [?|?]; [done|]. auto. }
  destruct H as [| l1 r fs1 e _ HM |l1 r fs1 _ HM _ |l1 r fs1 e _ HM _ _|l1 r fs1 _ HM Hn _];
    [done|destruct (Hm _ _ HM Hk) as (? & ? & ?); eauto 8..|].
  destruct (decide (k = blobPath l d)) as [->|Hne].
  - split; [|eauto]. destruct (MkdirAll_lookup _ _ _ _ (blobPath l d) HM) as [E|[? ?]];
      [congruence|done].
  - rewrite lookup_insert_ne in Hk by done.
    destruct (Hm _ _ HM Hk) as (? & ? & ?). split; [done|]. exists d. split; [done|].
    right. by rewrite lookup_insert_ne.
Qed.

(** X22.  A flushed store takes content again: after [Flush], on a store
    whose root directory is there, [writeBlobData] succeeds for every
    payload, and the blob at the path of its digest then holds exactly the
    payload. *)
Theorem Flush_then_write (l : Layout) (data : list byte) (fs : FS) :
  fs !! Clean (Root l) = Some Dir ->
  let p := Join [Root l; "blobs"; "sha256"] ++ "/" ++ EncodeToString (SHA256.Sum256 data) in
  exists fs', writeBlobData l data (Flush l fs).1 = (l, fs', None)
              /\ fs' !! p = Some (Regular data).
Proof.
  intros Hroot p. destruct (Flush_lookup l fs) as (fs0 & -> & H0). simpl.
  set (d1 := Join [Root l; "blobs"]) in *.
  assert (Join [Root l; "blobs"; "sha256"] = d1 ++ String Separator "sha256") as E2
    by (apply (Join_snoc [Root l] "blobs" "sha256"); done).
  assert (fs0 !! Clean (Root l) = Some Dir) as R0.
  { rewrite H0. unfold d1.
    destruct (Join_parent (Root l) "blobs" eq_refl) as [_ ->].
    destruct (Join_parent (Root l) "index.json" eq_refl) as [_ ->].
    by destruct (Join_parent (Root l) "oci-layout" eq_refl) as [_ ->]. }
  assert (fs0 !! d1 = None) as N1.
  { rewrite H0. unfold below at 1. by rewrite String.eqb_refl. }
  assert (fs0 !! Join [Root l; "blobs"; "sha256"] = None) as N2.
  { rewrite H0, E2. by rewrite below_app. }
  assert (fs0 !! p = None) as N3.
  { rewrite H0. unfold p. rewrite E2, append_assoc.
    change (String Separator "sha256" ++ "/" ++ EncodeToString (SHA256.Sum256 data))
      with (String Separator ("sha256" ++ "/" ++ EncodeToString (SHA256.Sum256 data))).
    by rewrite below_app. }
  destruct (MkdirAll_blobs l fs0) as [fsm Hm];
    [done|intros b; fold d1; congruence|intros b; congruence|].
  assert (fsm !! p = None) as Nm.
  { rewrite <- N3. apply (MkdirAll_rec_longer _ _ _ _ _ _ Hm).
    unfold p. rewrite length_append. simpl. lia. }
  pose proof (writeBlobData_eq l data fs0) as Hw. cbv zeta in Hw.
  change (blobDir l (v1.SHA256 data)) with (Join [Root l; "blobs"; "sha256"]) in Hw.
  change (v1.Hex (v1.SHA256 data)) with (EncodeToString (SHA256.Sum256 data)) in Hw.
  change (Join [Root l; "blobs"; "sha256"]
          ++ String Separator (EncodeToString (SHA256.Sum256 data))) with p in Hw.
  rewrite Hm, Nm in Hw. eexists. split; [exact Hw|]. apply lookup_insert_eq.
Qed.

(** ** Digests and blob paths *)

(** X23.  Blob paths do not collide: in one store, two digests whose
    algorithm and hex are plain path elements have the same blob path only
    when they are the same digest. *)
Theorem blobPath_injective (l : Layout) (d1 d2 : v1.Hash) :
  plain (v1.Algorithm d1) = true -> plain (v1.Hex d1) = true ->
  plain (v1.Algorithm d2) = true -> plain (v1.Hex d2) = true ->
  blobPath l d1 = blobPath l d2 -> d1 = d2.
Proof.
  intros A1 H1 A2 H2 E.
  assert (forall d, plain (v1.Hex d) = true -> Base (blobPath l d) = v1.Hex d) as HB.
  { intros d Hd. apply Base_cleanpath. by apply (Join_last [blobDir l d]). }
  assert (v1.Hex d1 = v1.Hex d2) as EH by (by rewrite <- (HB d1), <- (HB d2), E).
  destruct (blobPath_parent l d1 A1 H1) as [P1 _].
  destruct (blobPath_parent l d2 A2 H2) as [P2 _].
  rewrite E, P2 in P1. injection P1 as ED.
  assert (forall d, plain (v1.Algorithm d) = true -> Base (blobDir l d) = v1.Algorithm d) as HA.
  { intros d Hd. apply Base_cleanpath. by apply blobDir_eq. }
  assert (v1.Algorithm d1 = v1.Algorithm d2) as EA by (by rewrite <- (HA d1), <- (HA d2), ED).
  destruct d1, d2. simpl in *. by subst.
Qed.

Lemma blobPath_injective_witness :
  let a := v1.SHA256 (bytes_of_string "abc") in
  let b := v1.SHA256 (bytes_of_string "abd") in
  a <> b /\ blobPath store0 a <> blobPath store0 b.
Proof.
  intros a b.
  assert (a <> b) as Hne by (vm_compute; discriminate).
  split; [exact Hne|]. intros E. apply Hne.
  apply (blobPath_injective store0 a b); [evaluated..|exact E].
Defined.

Lemma Clean_idem (s : string) : Clean (Clean s) = Clean s.
Proof.
  destruct (Clean_cases s) as [->| [->| [x (rooted & fw & Hg & E)]]]; [done..|].
  rewrite E.
  assert (fw ++ [x] <> [])%list as Hne by (by destruct fw).
  destruct (render_props rooted (fw ++ [x]) Hg Hne) as (Hn & Hr & Hs).
  unfold Clean at 1. destruct (String.eqb_spec (render rooted (fw ++ [x])) "") as [|_]; [done|].
  rewrite Hr, Hs. unfold norm. rewrite fold_left_app.
  assert (fold_left (clean_step rooted) (if rooted then [""] else []) [] = []) as ->
    by (by destruct rooted).
  rewrite <- (rev_involutive (fw ++ [x])) at 1. rewrite norm_good by done.
  by rewrite rev_involutive.
Qed.

(* an empty last element adds nothing to a path that is not empty *)
Lemma Join_empty_last (elems : list string) :
  Join elems <> "" -> Join (elems ++ [""]) = Join elems.
Proof.
  intros Hne. unfold Join in *.
  assert (drop_while (fun e => String.eqb e "") (elems ++ [""])
          = match drop_while (fun e => String.eqb e "") elems with
            | [] => []
            | rest => rest ++ [""]
            end)%list as ->.
  { clear Hne. induction elems as [|e elems IH]; simpl; [done|].
    destruct (String.eqb e ""); [exact IH|done]. }
  destruct (drop_while _ elems) as [|e rest] eqn:Hd; [done|].
  assert (e <> "") as He.
  { clear Hne. induction elems as [|a elems IH]; simpl in Hd; [done|].
    destruct (String.eqb_spec a "") as [|Ha]; [auto|]. by injection Hd as <- _. }
  change ((e :: rest) ++ [""])%list with (e :: (rest ++ [""]))%list. cbv iota beta.
  change (e :: (rest ++ [""]))%list with ((e :: rest) ++ [""])%list.
  rewrite join_sep_snoc by done. set (t := join_sep (e :: rest)) in *.
  assert (t <> "") as Ht.
  { unfold t. destruct rest; [done|]. rewrite join_sep_cons by done. by destruct e. }
  unfold Clean. destruct (String.eqb_spec t "") as [|_]; [done|].
  destruct (String.eqb_spec (t ++ String Separator "") "") as [E|_]; [by destruct t|].
  rewrite is_rooted_app, split_sep_app by done.
  unfold norm. rewrite fold_left_app. done.
Qed.

(** X24.  A layer whose digest has an empty hex is passed over: its blob
    path is the blob directory itself, which [MkdirAll] has just made, so
    [writeLayer] finds the path taken and returns no error, and no file has
    been written: every regular file after the call was there before. *)
Theorem writeLayer_empty_hex (l l1 : Layout) (lyr : v1.Layer) (d : v1.Hash) (r : Reader)
    (fs fs1 : FS) :
  v1.Digest lyr = Ok d -> v1.Hex d = "" ->
  Compressed l lyr = (l1, Ok r) ->
  MkdirAll (blobDir l d) fs = (fs1, None) ->
  blobPath l d = blobDir l d
  /\ writeLayer l lyr fs = (l1, fs1, None)
  /\ forall k b, fs1 !! k = Some (Regular b) -> fs !! k = Some (Regular b).
Proof.
  intros Hd Hh Hc Hm.
  assert (blobDir l d <> "") as Hne.
  { unfold blobDir. rewrite Join_empty. intros H.
    inversion H as [|? ? _ H']; subst. by inversion H'. }
  assert (blobPath l d = blobDir l d) as E.
  { unfold blobPath. rewrite Hh.
    change [blobDir l d; ""] with ([blobDir l d] ++ [""])%list.
    rewrite (Join_empty_last [blobDir l d]).
    - unfold Join. simpl. destruct (String.eqb_spec (blobDir l d) "") as [|_]; [done|].
      assert (exists s, blobDir l d = Clean s) as [s ->]; [|apply Clean_idem].
      unfold blobDir, Join. simpl. destruct (String.eqb (Root l) ""); eauto.
    - unfold Join. simpl. destruct (String.eqb_spec (blobDir l d) "") as [|_]; [done|].
      apply Clean_nonempty. }
  split; [exact E|]. split.
  - unfold writeLayer. rewrite Hd, Hc. fold (blobDir l d). fold (blobPath l d).
    rewrite Hm, E. cbv iota beta. unfold Stat. by rewrite (MkdirAll_Ok _ _ _ Hm).
  - intros k b Hk. destruct (MkdirAll_lookup _ _ _ _ k Hm) as [<-|[_ ?]]; [done|congruence].
Qed.

Lemma writeLayer_empty_hex_witness :
  let lyr := v1.layerOf (Ok {| v1.Algorithm := ""; v1.Hex := "" |})
                        (Ok (NewReader (bytes_of_string "abc"))) in
  let r := writeLayer store0 lyr disk0 in
  r.2 = None /\ map_to_list r.1.2 = [("/store/blobs", Dir); ("/store", Dir)].
Proof.
  intros lyr r.
  destruct (writeLayer_empty_hex store0 store0 lyr {| v1.Algorithm := ""; v1.Hex := "" |}
              (NewReader (bytes_of_string "abc")) disk0
              (MkdirAll (blobDir store0 {| v1.Algorithm := ""; v1.Hex := "" |}) disk0).1)
    as (_ & H & _); [reflexivity| reflexivity| reflexivity| |].
  - apply injective_projections; [reflexivity|vm_compute; reflexivity].
  - unfold r. rewrite H. split; [reflexivity|vm_compute; reflexivity].
Defined.

(** ** Examples of the further properties *)

Lemma pair_eta {A B C : Type} (x : A * (B * C)) (c : C) :
  x.2.2 = c -> x = (x.1, (x.2.1, c)).
Proof. destruct x as [a [b c']]. simpl. by intros ->. Qed.

Lemma writeLayer_never_overwrites_witness :
  let fs := (writeBlobData store0 (bytes_of_string "abc") disk0).1.2 in
  let r := writeLayer store0 (mislabelled "abc" "abd") fs in
  fs !! abcPath = Some (Regular (bytes_of_string "abc"))
  /\ r.1.2 !! abcPath = Some (Regular (bytes_of_string "abc")).
Proof.
  intros fs r.
  assert (fs !! abcPath = Some (Regular (bytes_of_string "abc"))) as Hk
    by (vm_compute; reflexivity).
  assert (writeLayer store0 (mislabelled "abc" "abd") fs = (r.1.1, r.1.2, r.2)) as H
    by (apply triple_eta; reflexivity).
  split; [exact Hk|].
  exact (writeLayer_never_overwrites _ _ _ _ _ _ H _ _ Hk).
Defined.

Lemma writeLayer_partial_blob_witness :
  let fs := (MkdirAll "/store/blobs/sha256" disk0).1 in
  let r := writeLayer store0 (truncated "abc" "ab") fs in
  r.2 = Some (errorString "unexpected EOF")
  /\ r.1.2 !! abcPath = Some (Regular (bytes_of_string "ab"))
  /\ writeBlobData store0 (bytes_of_string "abc") r.1.2 = (store0, r.1.2, None).
Proof.
  intros fs r.
  destruct (writeLayer_partial_blob store0 store0 (truncated "abc" "ab")
              (v1.SHA256 (bytes_of_string "abc"))
              {| rd_data := bytes_of_string "ab";
                 rd_err := Some (errorString "unexpected EOF") |}
              (errorString "unexpected EOF") fs) as [H1 H2];
    [evaluated..|].
  assert (blobPath store0 (v1.SHA256 (bytes_of_string "abc")) = abcPath) as E
    by (vm_compute; reflexivity).
  rewrite E in H1, H2. unfold r. rewrite H1.
  split; [reflexivity|]. split; [apply lookup_insert_eq|].
  apply (H2 _ store0 (NewReader (bytes_of_string "abc"))); reflexivity.
Defined.

Lemma writeBlobData_succeeds_witness :
  exists fs', writeBlobData store0 (bytes_of_string "abc") disk0 = (store0, fs', None)
              /\ fs' !! abcPath = Some (Regular (bytes_of_string "abc")).
Proof.
  destruct (writeBlobData_succeeds store0 (bytes_of_string "abc") disk0)
    as (fs' & H & _ & Hp).
  - vm_compute. reflexivity.
  - intros b. vm_compute. discriminate.
  - intros b. vm_compute. discriminate.
  - exists fs'. split; [exact H|].
    assert (Join [Root store0; "blobs"; "sha256"] ++ "/"
              ++ EncodeToString (SHA256.Sum256 (bytes_of_string "abc")) = abcPath) as E
      by (vm_compute; reflexivity).
    rewrite E in Hp. rewrite Hp.
    assert (disk0 !! abcPath = None) as -> by (vm_compute; reflexivity). reflexivity.
Defined.

Lemma writeBlobData_commute_witness :
  let a := bytes_of_string "abc" in
  let b := bytes_of_string "abd" in
  let fs1 := (writeBlobData store0 a disk0).1.2 in
  let fs2 := (writeBlobData store0 b fs1).1.2 in
  exists mid, writeBlobData store0 b disk0 = (store0, mid, None)
              /\ writeBlobData store0 a mid = (store0, fs2, None).
Proof.
  intros a b fs1 fs2.
  assert (writeBlobData store0 a disk0 = (store0, fs1, None)) as H1
    by (apply triple_eta; vm_compute; reflexivity).
  assert (writeBlobData store0 b fs1 = (store0, fs2, None)) as H2
    by (apply triple_eta; vm_compute; reflexivity).
  apply (writeBlobData_commute store0 a b disk0 fs1 fs2 H1 H2).
  vm_compute. discriminate.
Defined.

Lemma Flush_blobs_gone_witness :
  let fs := (writeBlobData store0 (bytes_of_string "abc") disk0).1.2 in
  fs !! abcPath = Some (Regular (bytes_of_string "abc"))
  /\ (Flush store0 fs).1 !! abcPath = None.
Proof.
  intros fs. split; [vm_compute; reflexivity|].
  destruct (Flush_blobs_gone store0 fs (v1.SHA256 (bytes_of_string "abc"))) as [_ H];
    [evaluated..|].
  assert (blobPath store0 (v1.SHA256 (bytes_of_string "abc")) = abcPath) as E
    by (vm_compute; reflexivity).
  by rewrite E in H.
Defined.

Lemma AddOCI_never_overwrites_witness :
  let disk : FS := <[ abcPath := Regular (bytes_of_string "kept") ]> disk0 in
  let r := sampleAddOCI store0 disk (artifactOf [static.NewLayer (bytes_of_string "abc")])
             "app:v1" in
  r.2.2 = None /\ Root r.1.1 = "/store"
  /\ r.1.2 !! abcPath = Some (Regular (bytes_of_string "kept")).
Proof.
  intros disk r.
  assert (r = (r.1.1, r.1.2, r.2)) as H by (apply triple_eta; reflexivity).
  destruct (AddOCI_never_overwrites _ _ _ _ _ _ _ _ _ _ H) as [HR Hk].
  split; [vm_compute; reflexivity|]. split; [exact HR|].
  apply Hk; [vm_compute; discriminate|apply lookup_insert_eq].
Defined.

Lemma AddOCI_stores_blobs_witness :
  let r := sampleAddOCI store0 disk0
             (artifactOf [static.NewLayer (bytes_of_string "layer-a");
                          static.NewLayer (bytes_of_string "layer-b")]) "app:v1" in
  r.2.2 = None
  /\ is_Some (r.1.2 !! "/store/blobs/sha256/27a0539cf1ac5d679dcb5e64990326b2ea499fc3795de90d6d9326ada2cb27e3")
  /\ is_Some (r.1.2 !! "/store/blobs/sha256/44136fa355b3678a1146ad16f7e8649e94fb4fc21fe77e8310c060f61caaff8a").
Proof.
  intros r.
  assert (r = (r.1.1, r.1.2, (r.2.1, None))) as H
    by (apply quad_eta; vm_compute; reflexivity).
  destruct (AddOCI_stores_blobs _ _ _ _ _ _ _ _ _ _ H)
    as (m & mdata & cdata & layers & Hm & HM & Hc & _ & _ & B1 & B2 & _).
  change (Ok sampleManifest = Ok m) in Hm. injection Hm as <-.
  change (Ok (bytes_of_string (v1.MediaType sampleManifest)) = Ok mdata) in HM.
  injection HM as <-.
  change (Ok (bytes_of_string "{}") = Ok cdata) in Hc. injection Hc as <-.
  assert (blobPath store0 (v1.SHA256
                     (bytes_of_string "application/vnd.oci.image.manifest.v1+json"))
          = "/store/blobs/sha256/27a0539cf1ac5d679dcb5e64990326b2ea499fc3795de90d6d9326ada2cb27e3")
    as E1 by (vm_compute; reflexivity).
  assert (blobPath store0 (v1.SHA256 (bytes_of_string "{}"))
          = "/store/blobs/sha256/44136fa355b3678a1146ad16f7e8649e94fb4fc21fe77e8310c060f61caaff8a")
    as E2 by (vm_compute; reflexivity).
  rewrite E1 in B1. rewrite E2 in B2. split; [by rewrite H|]. by split.
Defined.

Lemma AddOCICollection_descriptors_witness :
  let oci := artifactOf [static.NewLayer (bytes_of_string "layer-a")] in
  let r := sampleAddOCICollection store0 disk0
             {| artifacts.Contents := Ok [("a", oci); ("b", oci)] |} in
  r.2.2 = None /\ length r.2.1 = 2%nat.
Proof.
  intros oci r.
  assert (r = (r.1.1, r.1.2, (r.2.1, None))) as H
    by (apply quad_eta; vm_compute; reflexivity).
  split; [by rewrite H|].
  pose proof (proj1 (AddOCICollection_descriptors sampleMarshal sampleEncode inOrder
                       store0 disk0) _ _ _ _ H) as HF.
  apply Forall2_length in HF. symmetry. exact HF.
Defined.

Lemma AddOCI_again_witness :
  let oci := artifactOf [static.NewLayer (bytes_of_string "layer-a");
                         static.NewLayer (bytes_of_string "layer-b")] in
  let r1 := sampleAddOCI store0 disk0 oci "app:v1" in
  exists l2 fs2 desc',
    AddOCI sampleMarshal sampleEncode reversed r1.1.1 r1.1.2 oci "app:v2"
      = (l2, fs2, (desc', None))
    /\ ocispec.Digest desc' = ocispec.Digest r1.2.1
    /\ map content.reference (content.index (OCI l2)) = ["app:v1"; "app:v2"].
Proof.
  intros oci r1.
  assert (r1 = (r1.1.1, r1.1.2, (r1.2.1, None))) as H
    by (apply quad_eta; vm_compute; reflexivity).
  destruct (AddOCI_again sampleMarshal sampleEncode inOrder store0 r1.1.1 disk0 r1.1.2
              oci "app:v1" r1.2.1 reversed "app:v2" eq_refl (fun n => reflexivity _) H)
    as (l2 & fs2 & desc' & H2 & Hd & _ & Hidx).
  exists l2, fs2, desc'. split; [exact H2|]. split; [exact Hd|]. by rewrite Hidx.
Defined.

Lemma AddOCI_failure_keeps_index_witness :
  let r := sampleAddOCI store0 disk0
             (artifactOf [static.NewLayer (bytes_of_string "layer-a");
                          unreadable "layer-b"]) "app:v1" in
  r.2.2 = Some (wrapError "write layers: " (errorString "read failed"))
  /\ OCI r.1.1 = OCI store0.
Proof.
  intros r.
  assert (r = (r.1.1, r.1.2,
               (r.2.1, Some (wrapError "write layers: " (errorString "read failed"))))) as H
    by (apply quad_eta; vm_compute; reflexivity).
  split; [by rewrite H|].
  apply (AddOCI_failure_keeps_index _ _ _ _ _ _ _ _ _ _ _ H). intros e. discriminate.
Defined.

Lemma NewLayout_options_witness :
  let r := NewLayout sampleNewOCI sampleLoadIndex "/store"
             [WithCache staleCache; WithCache warmCache] disk0 in
  exists l, r = (disk0, Ok l) /\ Root l = "/store" /\ cache l = Some warmCache.
Proof.
  intros r. eexists. split; [reflexivity|].
  destruct (proj1 (NewLayout_options sampleNewOCI sampleLoadIndex "/store" disk0)
              [staleCache; warmCache] _ _ eq_refl) as (HR & HC & _).
  split; [exact HR|exact HC].
Defined.

Lemma CopyAll_copies_witness :
  let r := CopyAll (list (string * string)) sampleCopy store3 disk0 [] None in
  r.2.2 = None /\ length r.2.1 = 3%nat
  /\ r.1 = [("a", ""); ("b", ""); ("c", "")].
Proof.
  intros r.
  assert (r = (r.1, (r.2.1, None))) as H by (apply pair_eta; vm_compute; reflexivity).
  destruct (CopyAll_copies _ _ _ _ _ _ _ _ H) as [HF _].
  apply Forall2_length in HF.
  split; [by rewrite H|]. split; [symmetry; exact HF|]. vm_compute. reflexivity.
Defined.

Lemma CopyAll_copy_fails_witness :
  CopyAll (list (string * string)) strictCopy store3 disk0 [] None
  = ([("a", "")],
     ([], Some (wrapError "walk: "
                 (wrapError "layout copy: "
                    (wrapError "oras copy: ref b, toRef : " (errorString "denied")))))).
Proof.
  exact (proj1 (proj2 (CopyAll_copy_fails (list (string * string)) strictCopy store3 disk0
                         [] [("a", "")] [("a", "")] [entryOf "a"] [entryOf "c"] (entryOf "b")
                         None "" [content.descriptor (entryOf "a")]
                         (errorString "denied") eq_refl eq_refl eq_refl eq_refl))).
Defined.

Lemma writeLayer_confined_witness :
  let r := writeLayer store0 (static.NewLayer (bytes_of_string "abc")) disk0 in
  disk0 !! "/store/blobs" = None
  /\ r.1.2 !! "/store/blobs" = Some Dir
  /\ String.prefix "/store/blobs" (blobDir store0 (v1.SHA256 (bytes_of_string "abc"))) = true.
Proof.
  intros r.
  assert (writeLayer store0 (static.NewLayer (bytes_of_string "abc")) disk0
          = (r.1.1, r.1.2, r.2)) as H by (apply triple_eta; reflexivity).
  destruct (writeLayer_confined _ _ _ _ _ _ H "/store/blobs")
    as (Hn & d & Hd & [E|[Hdir Hpre]]).
  - vm_compute. discriminate.
  - injection Hd as <-. vm_compute in E. discriminate E.
  - injection Hd as <-. split; [exact Hn|]. split; [exact Hdir|exact Hpre].
Defined.

Lemma Flush_then_write_witness :
  let fs := (writeLayer store0 (mislabelled "abc" "abd") disk0).1.2 in
  fs !! abcPath = Some (Regular (bytes_of_string "abd"))
  /\ exists fs', writeBlobData store0 (bytes_of_string "abc") (Flush store0 fs).1
                 = (store0, fs', None)
                 /\ fs' !! abcPath = Some (Regular (bytes_of_string "abc")).
Proof.
  intros fs. split; [vm_compute; reflexivity|].
  destruct (Flush_then_write store0 (bytes_of_string "abc") fs) as (fs' & H & Hp);
    [vm_compute; reflexivity|].
  exists fs'. split; [exact H|].
  assert (Join [Root store0; "blobs"; "sha256"] ++ "/"
            ++ EncodeToString (SHA256.Sum256 (bytes_of_string "abc")) = abcPath) as E
    by (vm_compute; reflexivity).
  by rewrite E in Hp.
Defined.
